(** * credit-card-input: formatting and validation engine

    A shallow embedding of the JavaScript sources
    [helpers.js] (getCardType, luhnChecksum, luhnValidate, isProbablyAmex),
    [format.js] (formatCvv, formatExpiry, formatCardNumber) and of the
    classes [EventEmitterLite] and [CreditCardInput] of the bundle.

    Conventions of the embedding:
    - a JavaScript string is a [list ascii]; every character test of the
      sources ([\d], [\D], [[^0-9]], comparison with a literal) separates
      the ten ASCII digits or one literal character from all the others;
    - a JavaScript number is [number]: [NaN] or an exact integer (all the
      numbers the sources compute are small integers);
    - [for] loops over an index range are folds over [seq]; the [while]
      loop of the cursor remapping carries explicit fuel;
    - listeners are identified by reference ([nat]); what a listener does
      when it is applied is given by the section variable [call]. *)

From Stdlib Require Import List Ascii String ZArith Lia Bool Arith.
From stdpp Require Import base gmap strings list.
Import ListNotations.

Local Open Scope nat_scope.

(** ** JavaScript strings *)

Abbreviation JSString := (list ascii).

(** String literals; the empty string is written [[]]. *)
Definition str (s : string) : JSString := list_ascii_of_string s.

(** [/\d/.test(c)]: one of the characters 0-9. *)
Definition isDigit (c : ascii) : bool :=
  (48 <=? nat_of_ascii c) && (nat_of_ascii c <=? 57).

(** [s.replace(/\D/g, '')] and [s.replace(/[^0-9]/g, '')]. *)
Definition removeNonDigits (s : JSString) : JSString := List.filter isDigit s.

(** [s.substring(a, b)]: arguments are clamped to the length and swapped
    when [a > b]. *)
Definition substring (s : JSString) (a b : nat) : JSString :=
  let a' := Nat.min a (length s) in
  let b' := Nat.min b (length s) in
  firstn (Nat.max a' b' - Nat.min a' b') (skipn (Nat.min a' b') s).

(** [s.slice(a, b)] for non-negative [a] and [b]. *)
Definition slice (s : JSString) (a b : nat) : JSString :=
  firstn (b - a) (skipn a s).

(** [s.charAt(i)]: the empty string when [i] is out of range. *)
Definition charAt (s : JSString) (i : nat) : JSString :=
  match nth_error s i with Some c => [c] | None => [] end.

(** [acc += s[i]]: what [s[i]] contributes to a string concatenation;
    out of range [s[i]] is [undefined]. *)
Definition index_text (s : JSString) (i : nat) : JSString :=
  match nth_error s i with Some c => [c] | None => str "undefined" end.

(** [s.startsWith(p)]. *)
Fixpoint startsWith (s p : JSString) : bool :=
  match p, s with
  | [], _ => true
  | _ :: _, [] => false
  | a :: p', b :: s' => Ascii.eqb a b && startsWith s' p'
  end.

(** [s === t] on strings. *)
Fixpoint str_eqb (s t : JSString) : bool :=
  match s, t with
  | [], [] => true
  | a :: s', b :: t' => Ascii.eqb a b && str_eqb s' t'
  | _, _ => false
  end.

(** ** JavaScript numbers *)

Inductive number : Type :=
| NaN
| Num (z : Z).

Definition num_add (a b : number) : number :=
  match a, b with Num x, Num y => Num (x + y) | _, _ => NaN end.

Definition num_sub (a b : number) : number :=
  match a, b with Num x, Num y => Num (x - y) | _, _ => NaN end.

Definition num_mul (a b : number) : number :=
  match a, b with Num x, Num y => Num (x * y) | _, _ => NaN end.

(** [a % b] on integers: the sign follows the dividend; [x % 0] is NaN. *)
Definition num_rem (a b : number) : number :=
  match a, b with
  | Num x, Num y => if (y =? 0)%Z then NaN else Num (Z.rem x y)
  | _, _ => NaN
  end.

(** Comparisons: any comparison with NaN is false. *)
Definition num_gt (a b : number) : bool :=
  match a, b with Num x, Num y => (y <? x)%Z | _, _ => false end.

Definition num_lt (a b : number) : bool :=
  match a, b with Num x, Num y => (x <? y)%Z | _, _ => false end.

Definition num_ge (a b : number) : bool :=
  match a, b with Num x, Num y => (y <=? x)%Z | _, _ => false end.

Definition num_le (a b : number) : bool :=
  match a, b with Num x, Num y => (x <=? y)%Z | _, _ => false end.

Definition num_eqb (a b : number) : bool :=
  match a, b with Num x, Num y => (x =? y)%Z | _, _ => false end.

(** *** parseInt *)

(** White space and line terminators among the 8-bit characters. *)
Definition isWhiteSpace (c : ascii) : bool :=
  let n := nat_of_ascii c in
  (n =? 9) || (n =? 10) || (n =? 11) || (n =? 12) || (n =? 13)
  || (n =? 32) || (n =? 160).

Fixpoint trimStart (s : JSString) : JSString :=
  match s with
  | c :: s' => if isWhiteSpace c then trimStart s' else s
  | [] => []
  end.

(** The value of [c] as a digit of the given radix. *)
Definition digitValue (radix : Z) (c : ascii) : option Z :=
  let n := Z.of_nat (nat_of_ascii c) in
  let v :=
    if ((48 <=? n) && (n <=? 57))%Z then Some (n - 48)%Z
    else if ((97 <=? n) && (n <=? 122))%Z then Some (n - 87)%Z
    else if ((65 <=? n) && (n <=? 90))%Z then Some (n - 55)%Z
    else None in
  match v with
  | Some d => if (d <? radix)%Z then Some d else None
  | None => None
  end.

(** The longest prefix of radix digits, accumulated left to right;
    [acc] is [None] while no digit has been read. *)
Fixpoint parseDigits (radix : Z) (acc : option Z) (s : JSString) : option Z :=
  match s with
  | c :: s' =>
      match digitValue radix c with
      | Some d =>
          parseDigits radix
            (Some (match acc with Some a => a * radix + d | None => d end)%Z) s'
      | None => acc
      end
  | [] => acc
  end.

(** [parseInt(s, radix)]; [radix = None] is the one-argument call. *)
Definition parseInt (s : JSString) (radix : option Z) : number :=
  let s1 := trimStart s in
  let '(sign, s2) :=
    match s1 with
    | c :: r =>
        if Ascii.eqb c "-" then ((-1)%Z, r)
        else if Ascii.eqb c "+" then (1%Z, r)
        else (1%Z, s1)
    | [] => (1%Z, s1)
    end in
  let r0 := match radix with Some r => r | None => 0%Z end in
  if negb (r0 =? 0)%Z && ((r0 <? 2)%Z || (36 <? r0)%Z) then NaN
  else
    let stripPrefix := (r0 =? 0)%Z || (r0 =? 16)%Z in
    let r1 := if (r0 =? 0)%Z then 10%Z else r0 in
    let '(r2, s3) :=
      match s2 with
      | a :: b :: rest =>
          if stripPrefix && Ascii.eqb a "0" && (Ascii.eqb b "x" || Ascii.eqb b "X")
          then (16%Z, rest) else (r1, s2)
      | _ => (r1, s2)
      end in
    match parseDigits r2 None s3 with
    | Some v => Num (sign * v)
    | None => NaN
    end.

(** ** helpers.js *)

(** [/^5[1-5]/.test(digits)] *)
Definition test_5_1to5 (s : JSString) : bool :=
  match s with
  | a :: b :: _ =>
      Ascii.eqb a "5" && (49 <=? nat_of_ascii b) && (nat_of_ascii b <=? 53)
  | _ => false
  end.

Definition getCardType (digits : JSString) : JSString :=
  if length digits =? 0 then []
  else
    let firstTwo := substring digits 0 2 in
    let firstThree := substring digits 0 3 in
    let firstFour := substring digits 0 4 in
    (* Visa *)
    if str_eqb (charAt digits 0) (str "4") then str "Visa"
    (* Mastercard (ranges: 51-55, 2221-2720) *)
    else if test_5_1to5 digits then str "Mastercard"
    else if num_ge (parseInt firstFour None) (Num 2221)
            && num_le (parseInt firstFour None) (Num 2720) then str "Mastercard"
    (* American Express *)
    else if str_eqb firstTwo (str "34") || str_eqb firstTwo (str "37")
    then str "American Express"
    (* Discover *)
    else if str_eqb firstFour (str "6011")
            || startsWith digits (str "65")
            || (num_ge (parseInt firstThree None) (Num 644)
                && num_le (parseInt firstThree None) (Num 649))
    then str "Discover"
    (* JCB *)
    else if startsWith digits (str "35") then str "JCB"
    (* Diners Club *)
    else if str_eqb firstTwo (str "36")
            || str_eqb firstTwo (str "38")
            || (num_ge (parseInt firstThree None) (Num 300)
                && num_le (parseInt firstThree None) (Num 305))
    then str "Diners Club"
    (* UnionPay *)
    else if startsWith digits (str "62") then str "UnionPay"
    (* Default *)
    else str "Unknown".

(** One iteration of the loop of [luhnChecksum], at index [i]. *)
Definition luhnStep (code : JSString) (parity : nat) (sum : number) (i : nat)
  : number :=
  let d := parseInt (charAt code i) None in
  let d := if i mod 2 =? parity then num_mul d (Num 2) else d in
  let d := if num_gt d (Num 9) then num_sub d (Num 9) else d in
  num_add sum d.

(** [for (let i = len - 1; i >= 0; i--)]: the indices in decreasing order. *)
Definition luhnChecksum (code : JSString) : number :=
  let len := length code in
  let parity := len mod 2 in
  let sum := fold_left (luhnStep code parity) (rev (seq 0 len)) (Num 0) in
  num_rem sum (Num 10).

Definition luhnValidate (fullcode : JSString) : bool :=
  let fullcode := removeNonDigits fullcode in
  if length fullcode <? 2 then false
  else num_eqb (luhnChecksum fullcode) (Num 0).

Definition isProbablyAmex (digits : JSString) : bool :=
  (2 <=? length digits)
  && (startsWith digits (str "34") || startsWith digits (str "37")).

(** ** The input element *)

(** A text input: its value and its caret.  ([selectionStart] is a number
    for every input that has a selection, so [input.selectionStart || 0]
    is [selectionStart input].) *)
Record HTMLInputElement : Type := mkInput {
  value : JSString;
  selectionStart : nat
}.

(** [input.value = v]: the caret moves to the end of the new value. *)
Definition set_value (input : HTMLInputElement) (v : JSString)
  : HTMLInputElement :=
  {| value := v; selectionStart := length v |}.

(** [input.setSelectionRange(start, end)] with [start = end]; the position
    is clamped to the length of the value. *)
Definition setSelectionRange (input : HTMLInputElement) (start _end : nat)
  : HTMLInputElement :=
  {| value := value input;
     selectionStart := Nat.min start (length (value input)) |}.

(** ** format.js *)

Definition formatCvv (input : HTMLInputElement) : HTMLInputElement :=
  let oldValue := value input in
  let cursorPos := selectionStart input in
  let digits := removeNonDigits oldValue in
  let newValue := substring digits 0 4 in
  let input := set_value input newValue in
  if cursorPos <=? length newValue
  then setSelectionRange input cursorPos cursorPos
  else setSelectionRange input (length newValue) (length newValue).

(** [/\d/.test(formatted[i])]; out of range [formatted[i]] is [undefined],
    which the test rejects. *)
Definition testDigitAt (formatted : JSString) (i : nat) : bool :=
  match nth_error formatted i with Some c => isDigit c | None => false end.

(** The [while] loop that both [formatExpiry] and [formatCardNumber] end
    with, on the state [(newCursorPos, digitCount)].  Each iteration
    increments [newCursorPos]; when the fuel runs out the current state is
    returned ([remapLoop_spec] shows that [length formatted] iterations
    always reach the exit of the loop, [remapLoop_fuel] that more fuel
    changes nothing). *)
Fixpoint remapLoop (fuel : nat) (formatted : JSString)
  (digitsBeforeCursor newCursorPos digitCount : nat) : nat * nat :=
  if (newCursorPos <? length formatted) && (digitCount <? digitsBeforeCursor)
  then
    match fuel with
    | 0 => (newCursorPos, digitCount)
    | S fuel' =>
        let digitCount :=
          if testDigitAt formatted newCursorPos then S digitCount
          else digitCount in
        remapLoop fuel' formatted digitsBeforeCursor (S newCursorPos) digitCount
    end
  else (newCursorPos, digitCount).

(** The cursor computation after [input.value = formatted]. *)
Definition remapCursor (formatted : JSString) (digitsBeforeCursor : nat) : nat :=
  let '(newCursorPos, digitCount) :=
    remapLoop (length formatted) formatted digitsBeforeCursor 0 0 in
  if digitCount <? digitsBeforeCursor then length formatted else newCursorPos.

(** The value [formatExpiry] writes, from the (truncated) digits. *)
Definition expiryFormatted (digits : JSString) : JSString :=
  if 0 <? length digits then
    if length digits <=? 2 then digits
    else substring digits 0 2 ++ str " / " ++ substring digits 2 4
  else [].

Definition formatExpiry (input : HTMLInputElement) : HTMLInputElement :=
  let cursorPos := selectionStart input in
  let oldValue := value input in
  let digits := substring (removeNonDigits oldValue) 0 4 in
  let digitsBeforeCursor :=
    length (removeNonDigits (slice oldValue 0 cursorPos)) in
  let formatted := expiryFormatted digits in
  let input := set_value input formatted in
  let newCursorPos := remapCursor formatted digitsBeforeCursor in
  setSelectionRange input newCursorPos newCursorPos.

(** The body of the inner loop of the Amex branch, on the state
    [(formatted, digitIndex)]. *)
Definition amexInner (digits : JSString) (st : JSString * nat)
  : JSString * nat :=
  let '(formatted, digitIndex) := st in
  if digitIndex <? length digits
  then (formatted ++ index_text digits digitIndex, S digitIndex)
  else st.

(** The body of the outer loop, at group index [i]. *)
Definition amexOuter (digits : JSString) (groups : list nat)
  (st : JSString * nat) (i : nat) : JSString * nat :=
  let groupSize := nth i groups 0 in
  let '(formatted, digitIndex) := Nat.iter groupSize (amexInner digits) st in
  if (digitIndex <? length digits) && (i <? length groups - 1)
  then (formatted ++ str " ", digitIndex)
  else (formatted, digitIndex).

Definition amexFormatted (digits : JSString) : JSString :=
  let groups := [4; 6; 5] in
  fst (fold_left (amexOuter digits groups) (seq 0 (length groups)) ([], 0)).

(** The body of the loop of the other branch, at index [i]. *)
Definition plainStep (digits : JSString) (formatted : JSString) (i : nat)
  : JSString :=
  let formatted :=
    if (0 <? i) && (i mod 4 =? 0) then formatted ++ str " " else formatted in
  formatted ++ index_text digits i.

Definition plainFormatted (digits : JSString) : JSString :=
  fold_left (plainStep digits) (seq 0 (length digits)) [].

Definition formatCardNumber (input : HTMLInputElement) : HTMLInputElement :=
  let oldValue := value input in
  let cursorPos := selectionStart input in
  let digits := removeNonDigits oldValue in
  let isAmex := isProbablyAmex digits in
  let maxDigits := if isAmex then 15 else 16 in
  let digits := substring digits 0 maxDigits in
  let digitsBeforeCursor :=
    length (removeNonDigits (slice oldValue 0 cursorPos)) in
  let formatted :=
    if isAmex then amexFormatted digits else plainFormatted digits in
  let input := set_value input formatted in
  let newCursorPos := remapCursor formatted digitsBeforeCursor in
  setSelectionRange input newCursorPos newCursorPos.

(** ** Statuses and event payloads *)

Inductive Status : Type := neutral | valid | invalid.

Definition Status_eqb (a b : Status) : bool :=
  match a, b with
  | neutral, neutral | valid, valid | invalid, invalid => true
  | _, _ => false
  end.

Record CardStatusEvent : Type := mkCardStatusEvent {
  card_status : Status;
  card_value : JSString;
  card_digits : JSString;
  card_type : JSString;
  card_isAmex : bool;
  card_isValid : bool;
  card_maxDigits : nat
}.

(** [month] and [year] are [null] ([None]) or a number. *)
Record ExpiryStatusEvent : Type := mkExpiryStatusEvent {
  expiry_status : Status;
  expiry_value : JSString;
  expiry_digits : JSString;
  expiry_month : option number;
  expiry_year : option number
}.

Record CvvStatusEvent : Type := mkCvvStatusEvent {
  cvv_status : Status;
  cvv_value : JSString;
  cvv_digits : JSString;
  cvv_expectedLength : nat;
  cvv_isAmex : bool
}.

Record AllValidEvent : Type := mkAllValidEvent { isAllValid : bool }.

(** What [getState()] returns. *)
Record State : Type := mkState {
  cardStatus : Status;
  expiryStatus : Status;
  cvvStatus : Status;
  cardType : JSString;
  isAmex : bool;
  allValid : bool
}.

(** The arguments a listener is applied to: an event object, or the
    engine itself (seen through [getState]). *)
Inductive Value : Type :=
| VCard (e : CardStatusEvent)
| VExpiry (e : ExpiryStatusEvent)
| VCvv (e : CvvStatusEvent)
| VAllValid (e : AllValidEvent)
| VThis (s : State).

(** [new Date()]: the calendar year and the month index 0..11. *)
Record Date : Type := mkDate { getFullYear : Z; getMonth : Z }.

(** A listener is a function reference. *)
Definition Listener : Type := nat.

Record EventEmitterLite : Type := mkEmitter {
  events : gmap JSString (list Listener);
  logErrors : bool
}.

(** The private fields of a [CreditCardInput] instance. *)
Record CreditCardInput : Type := mkEngine {
  _formatCardNumber : HTMLInputElement -> HTMLInputElement;
  _formatExpiry : HTMLInputElement -> HTMLInputElement;
  _formatCvv : HTMLInputElement -> HTMLInputElement;
  _getCardType : JSString -> JSString;
  _cardStatus : Status;
  _expiryStatus : Status;
  _cvvStatus : Status;
  _cardType : JSString;
  _isAmex : bool;
  _allValid : bool
}.

Definition getState (this : CreditCardInput) : State :=
  {| cardStatus := _cardStatus this;
     expiryStatus := _expiryStatus this;
     cvvStatus := _cvvStatus this;
     cardType := _cardType this;
     isAmex := _isAmex this;
     allValid := _allValid this |}.

(** The constructor, with the four optional overrides. *)
Definition new_CreditCardInput
  (formatCardNumber' : option (HTMLInputElement -> HTMLInputElement))
  (formatExpiry' : option (HTMLInputElement -> HTMLInputElement))
  (formatCvv' : option (HTMLInputElement -> HTMLInputElement))
  (getCardType' : option (JSString -> JSString)) : CreditCardInput :=
  {| _formatCardNumber := default formatCardNumber formatCardNumber';
     _formatExpiry := default formatExpiry formatExpiry';
     _formatCvv := default formatCvv formatCvv';
     _getCardType := default getCardType getCardType';
     _cardStatus := neutral;
     _expiryStatus := neutral;
     _cvvStatus := neutral;
     _cardType := [];
     _isAmex := false;
     _allValid := false |}.

Section Engine.

(** The state of the host application, the values listeners throw, and
    what applying a listener does: it may change everything outside the
    private fields of the engine, and it returns or throws. *)
Variable Host : Type.
Variable Exn : Type.

(** Everything outside the private fields of the engine: the host, the
    three input elements, the emitter with its subscriptions, the console
    and the clock. *)
Record World : Type := mkWorld {
  host : Host;
  cardInput : HTMLInputElement;
  expiryInput : HTMLInputElement;
  cvvInput : HTMLInputElement;
  eventEmitter : EventEmitterLite;
  console : list (JSString * Exn);
  now : Date
}.

Inductive Completion : Type :=
| Normal
| Throw (e : Exn).

Variable call : Listener -> list Value -> World -> World * Completion.

(** The world together with two records kept for the statements: the
    calls of [CreditCardInput.emit] and the applications of listeners, in
    order. *)
Record Sys : Type := mkSys {
  world : World;
  emitted : list (JSString * list Value);
  applied : list (Listener * list Value)
}.

Inductive Result (A : Type) : Type :=
| Returned (a : A)
| Thrown (e : Exn).
Arguments Returned {A} a.
Arguments Thrown {A} e.

(** Computations that change the system and return or throw. *)
Definition M (A : Type) : Type := Sys -> Sys * Result A.

Definition ret {A} (a : A) : M A := fun s => (s, Returned a).

Definition bind {A B} (m : M A) (k : A -> M B) : M B :=
  fun s =>
    match m s with
    | (s', Returned a) => k a s'
    | (s', Thrown e) => (s', Thrown e)
    end.

(** [try { m } catch (e) { h e }] *)
Definition try_catch {A} (m : M A) (h : Exn -> M A) : M A :=
  fun s =>
    match m s with
    | (s', Returned a) => (s', Returned a)
    | (s', Thrown e) => h e s'
    end.

Definition read {A} (f : World -> A) : M A :=
  fun s => (s, Returned (f (world s))).

Definition update_world (f : World -> World) : M unit :=
  fun s =>
    ({| world := f (world s); emitted := emitted s; applied := applied s |},
     Returned tt).

Notation "'let*' x ':=' m 'in' k" := (bind m (fun x => k))
  (at level 10, x name, m at level 100, k at level 200, only parsing).
Notation "m '>>' k" := (bind m (fun _ => k))
  (at level 100, k at level 200, right associativity, only parsing).

(** [for (x of l) f(x)] *)
Fixpoint for_each {A} (l : list A) (f : A -> M unit) : M unit :=
  match l with
  | [] => ret tt
  | x :: l' => f x >> for_each l' f
  end.

(** [listener.apply(this, args)] *)
Definition apply (listener : Listener) (args : list Value) : M unit :=
  fun s =>
    let '(w, c) := call listener args (world s) in
    ({| world := w; emitted := emitted s;
        applied := applied s ++ [(listener, args)] |},
     match c with Normal => Returned tt | Throw e => Thrown e end).

(** [console.error(`Error in listener for event "${String(event)}":`, e)] *)
Definition console_error (event : JSString) (e : Exn) : M unit :=
  update_world (fun w =>
    {| host := host w; cardInput := cardInput w; expiryInput := expiryInput w;
       cvvInput := cvvInput w; eventEmitter := eventEmitter w;
       console := console w ++ [(event, e)]; now := now w |}).

(** [EventEmitterLite.on]: the returned unsubscriber is not modelled. *)
Definition on (event : JSString) (listener : Listener)
  (this : EventEmitterLite) : EventEmitterLite :=
  let this :=
    match events this !! event with
    | Some _ => this
    | None => {| events := <[event := []]> (events this);
                 logErrors := logErrors this |}
    end in
  {| events := <[event := default [] (events this !! event) ++ [listener]]>
                 (events this);
     logErrors := logErrors this |}.

(** The body of the loop of [EventEmitterLite.emit]: the listener is
    applied inside [try]; what it throws is caught, and logged when
    [logErrors] is set. *)
Definition emitStep (event : JSString) (args : list Value)
  (listener : Listener) : M unit :=
  try_catch (apply listener args)
    (fun e =>
       let* log := read (fun w => logErrors (eventEmitter w)) in
       if log then console_error event e else ret tt).

(** [EventEmitterLite.emit]: the loop runs over [queue], a copy of the
    listeners taken before the first one is applied. *)
Definition EventEmitterLite_emit (event : JSString) (args : list Value)
  : M unit :=
  let* listeners := read (fun w => events (eventEmitter w) !! event) in
  match listeners with
  | None => ret tt
  | Some _ =>
      let* queue :=
        read (fun w => default [] (events (eventEmitter w) !! event)) in
      for_each queue (emitStep event args)
  end.

(** [CreditCardInput.emit]: the engine is passed as the last argument. *)
Definition emit (this : CreditCardInput) (event : JSString)
  (args : list Value) : M unit :=
  (fun s =>
     ({| world := world s; emitted := emitted s ++ [(event, args)];
         applied := applied s |}, Returned tt))
  >> EventEmitterLite_emit event (args ++ [VThis (getState this)]).

Definition set_allValid (this : CreditCardInput) (b : bool) : CreditCardInput :=
  {| _formatCardNumber := _formatCardNumber this;
     _formatExpiry := _formatExpiry this;
     _formatCvv := _formatCvv this;
     _getCardType := _getCardType this;
     _cardStatus := _cardStatus this;
     _expiryStatus := _expiryStatus this;
     _cvvStatus := _cvvStatus this;
     _cardType := _cardType this;
     _isAmex := _isAmex this;
     _allValid := b |}.

Definition _checkAllValid (this : CreditCardInput) : M CreditCardInput :=
  let allValidNow :=
    Status_eqb (_cardStatus this) valid
    && Status_eqb (_expiryStatus this) valid
    && Status_eqb (_cvvStatus this) valid in
  if negb (Bool.eqb (_allValid this) allValidNow) then
    let this := set_allValid this allValidNow in
    emit this (str "allValid") [VAllValid {| isAllValid := allValidNow |}]
    >> ret this
  else ret this.

Definition set_card (this : CreditCardInput) (type : JSString) (amex : bool)
  (status : Status) : CreditCardInput :=
  {| _formatCardNumber := _formatCardNumber this;
     _formatExpiry := _formatExpiry this;
     _formatCvv := _formatCvv this;
     _getCardType := _getCardType this;
     _cardStatus := status;
     _expiryStatus := _expiryStatus this;
     _cvvStatus := _cvvStatus this;
     _cardType := type;
     _isAmex := amex;
     _allValid := _allValid this |}.

Definition set_expiryStatus (this : CreditCardInput) (status : Status)
  : CreditCardInput :=
  {| _formatCardNumber := _formatCardNumber this;
     _formatExpiry := _formatExpiry this;
     _formatCvv := _formatCvv this;
     _getCardType := _getCardType this;
     _cardStatus := _cardStatus this;
     _expiryStatus := status;
     _cvvStatus := _cvvStatus this;
     _cardType := _cardType this;
     _isAmex := _isAmex this;
     _allValid := _allValid this |}.

Definition set_cvvStatus (this : CreditCardInput) (status : Status)
  : CreditCardInput :=
  {| _formatCardNumber := _formatCardNumber this;
     _formatExpiry := _formatExpiry this;
     _formatCvv := _formatCvv this;
     _getCardType := _getCardType this;
     _cardStatus := _cardStatus this;
     _expiryStatus := _expiryStatus this;
     _cvvStatus := status;
     _cardType := _cardType this;
     _isAmex := _isAmex this;
     _allValid := _allValid this |}.

(** What [_updateCardStatus] computes from the value of the card field. *)
Definition cardEvent (this : CreditCardInput) (value : JSString)
  : CardStatusEvent :=
  let digits := removeNonDigits value in
  let isAmex := isProbablyAmex digits in
  let maxDigits := if isAmex then 15 else 16 in
  let type := _getCardType this digits in
  let '(status, isValid) :=
    if maxDigits <=? length digits then
      let isValid := luhnValidate digits in
      (if isValid then valid else invalid, isValid)
    else (neutral, false) in
  {| card_status := status; card_value := value; card_digits := digits;
     card_type := type; card_isAmex := isAmex; card_isValid := isValid;
     card_maxDigits := maxDigits |}.

Definition _updateCardStatus (this : CreditCardInput) : M CreditCardInput :=
  let* value := read (fun w => value (cardInput w)) in
  let ev := cardEvent this value in
  (* _cardType and _isAmex are assigned first, _cardStatus just before
     the event is emitted *)
  let this := set_card this (card_type ev) (card_isAmex ev) (card_status ev) in
  emit this (str "cardStatusChange") [VCard ev]
  >> _checkAllValid this.

(** What [_updateExpiryStatus] computes from the value of the expiry field
    and [new Date()]. *)
Definition expiryEvent (value : JSString) (now : Date) : ExpiryStatusEvent :=
  let digits := removeNonDigits value in
  if length digits =? 4 then
    let month := parseInt (substring digits 0 2) (Some 10%Z) in
    let year := num_add (parseInt (substring digits 2 4) (Some 10%Z)) (Num 2000) in
    let status :=
      if num_lt month (Num 1) || num_gt month (Num 12) then invalid
      else
        let currentYear := Num (getFullYear now) in
        let currentMonth := num_add (Num (getMonth now)) (Num 1) in
        let currentTotal := num_add (num_mul currentYear (Num 12)) currentMonth in
        let inputTotal := num_add (num_mul year (Num 12)) month in
        let maxTotal :=
          num_add (num_mul (num_add currentYear (Num 10)) (Num 12)) currentMonth in
        if num_lt inputTotal currentTotal || num_gt inputTotal maxTotal
        then invalid else valid in
    {| expiry_status := status; expiry_value := value; expiry_digits := digits;
       expiry_month := Some month; expiry_year := Some year |}
  else
    {| expiry_status := neutral; expiry_value := value; expiry_digits := digits;
       expiry_month := None; expiry_year := None |}.

Definition _updateExpiryStatus (this : CreditCardInput) : M CreditCardInput :=
  let* value := read (fun w => value (expiryInput w)) in
  let* date := read now in
  let ev := expiryEvent value date in
  let this := set_expiryStatus this (expiry_status ev) in
  emit this (str "expiryStatusChange") [VExpiry ev]
  >> _checkAllValid this.

(** What [_updateCvvStatus] computes from the value of the CVV field and
    the [_isAmex] flag of the last card evaluation. *)
Definition cvvEvent (this : CreditCardInput) (value : JSString)
  : CvvStatusEvent :=
  let digits := removeNonDigits value in
  let isAmex := _isAmex this in
  let expectedLength := if isAmex then 4 else 3 in
  let status :=
    if 0 <? length digits then
      if length digits =? expectedLength then valid else invalid
    else neutral in
  {| cvv_status := status; cvv_value := value; cvv_digits := digits;
     cvv_expectedLength := expectedLength; cvv_isAmex := isAmex |}.

Definition _updateCvvStatus (this : CreditCardInput) : M CreditCardInput :=
  let* value := read (fun w => value (cvvInput w)) in
  let ev := cvvEvent this value in
  let this := set_cvvStatus this (cvv_status ev) in
  emit this (str "cvvStatusChange") [VCvv ev]
  >> _checkAllValid this.

(** The three [input] event handlers that [init] installs. *)
Definition set_cardInput (i : HTMLInputElement) (w : World) : World :=
  {| host := host w; cardInput := i; expiryInput := expiryInput w;
     cvvInput := cvvInput w; eventEmitter := eventEmitter w;
     console := console w; now := now w |}.

Definition set_expiryInput (i : HTMLInputElement) (w : World) : World :=
  {| host := host w; cardInput := cardInput w; expiryInput := i;
     cvvInput := cvvInput w; eventEmitter := eventEmitter w;
     console := console w; now := now w |}.

Definition set_cvvInput (i : HTMLInputElement) (w : World) : World :=
  {| host := host w; cardInput := cardInput w; expiryInput := expiryInput w;
     cvvInput := i; eventEmitter := eventEmitter w;
     console := console w; now := now w |}.

Definition onCardInput (this : CreditCardInput) : M CreditCardInput :=
  update_world (fun w => set_cardInput (_formatCardNumber this (cardInput w)) w)
  >> let* this := _updateCardStatus this in
     (* CVV depends on card type *)
     _updateCvvStatus this.

Definition onExpiryInput (this : CreditCardInput) : M CreditCardInput :=
  update_world (fun w => set_expiryInput (_formatExpiry this (expiryInput w)) w)
  >> _updateExpiryStatus this.

Definition onCvvInput (this : CreditCardInput) : M CreditCardInput :=
  update_world (fun w => set_cvvInput (_formatCvv this (cvvInput w)) w)
  >> _updateCvvStatus this.

(** [init]: the initial update of the three fields, then the [init] event. *)
Definition init (this : CreditCardInput) : M CreditCardInput :=
  let* this := _updateCardStatus this in
  let* this := _updateExpiryStatus this in
  let* this := _updateCvvStatus this in
  emit this (str "init") [] >> ret this.

End Engine.

Arguments mkWorld {Host Exn}.
Arguments host {Host Exn}.
Arguments cardInput {Host Exn}.
Arguments expiryInput {Host Exn}.
Arguments cvvInput {Host Exn}.
Arguments eventEmitter {Host Exn}.
Arguments console {Host Exn}.
Arguments now {Host Exn}.
Arguments Normal {Exn}.
Arguments Throw {Exn}.
Arguments mkSys {Host Exn}.
Arguments world {Host Exn}.
Arguments emitted {Host Exn}.
Arguments applied {Host Exn}.
Arguments Returned {Exn A}.
Arguments Thrown {Exn A}.
Arguments ret {Host Exn A}.
Arguments bind {Host Exn A B}.
Arguments try_catch {Host Exn A}.
Arguments read {Host Exn A}.
Arguments update_world {Host Exn}.
Arguments for_each {Host Exn A}.
Arguments apply {Host Exn}.
Arguments console_error {Host Exn}.
Arguments emitStep {Host Exn}.
Arguments EventEmitterLite_emit {Host Exn}.
Arguments emit {Host Exn}.
Arguments _checkAllValid {Host Exn}.
Arguments _updateCardStatus {Host Exn}.
Arguments _updateExpiryStatus {Host Exn}.
Arguments _updateCvvStatus {Host Exn}.
Arguments set_cardInput {Host Exn}.
Arguments set_expiryInput {Host Exn}.
Arguments set_cvvInput {Host Exn}.
Arguments onCardInput {Host Exn}.
Arguments onExpiryInput {Host Exn}.
Arguments onCvvInput {Host Exn}.
Arguments init {Host Exn}.

(** * Statements *)

(** A string of digits. *)
Definition allDigits (s : JSString) : bool := forallb isDigit s.

(** The decimal value of a digit character. *)
Definition digitOf (c : ascii) : Z := (Z.of_nat (nat_of_ascii c) - 48)%Z.

(** ** The Luhn checksum as a sum of terms *)

(** [d(i)]: the digit at position [i]. *)
Definition digitAt (code : JSString) (i : nat) : Z :=
  match nth_error code i with Some c => digitOf c | None => 0%Z end.

(** [t(i)]: the digit doubled (minus 9 when the double exceeds 9) at the
    positions of the parity of the length, the digit itself elsewhere. *)
Definition luhnTerm (code : JSString) (i : nat) : Z :=
  let d := digitAt code i in
  if i mod 2 =? length code mod 2 then
    if (9 <? 2 * d)%Z then (2 * d - 9)%Z else (2 * d)%Z
  else d.

Definition sumZ (l : list Z) : Z := fold_right Z.add 0%Z l.

(** The sum over the positions [len-1] down to [0], modulo 10. *)
Definition luhnChecksum_spec (code : JSString) : Z :=
  (sumZ (map (luhnTerm code) (rev (seq 0 (length code)))) mod 10)%Z.

(** ** The classifier as an ordered list of prefix rules *)

(** The decimal value of a string of digits. *)
Definition decimal (s : JSString) : Z :=
  fold_left (fun a c => (a * 10 + digitOf c)%Z) s 0%Z.

(** The first [k] digits as a number; [None] when fewer than [k] digits
    are there. *)
Definition leading (k : nat) (d : JSString) : option Z :=
  if k <=? length d then Some (decimal (firstn k d)) else None.

(** The first [k] digits exist and, as a number, lie in [[lo, hi]]. *)
Definition leadingIn (k : nat) (d : JSString) (lo hi : Z) : bool :=
  match leading k d with
  | Some v => (lo <=? v)%Z && (v <=? hi)%Z
  | None => false
  end.

Definition classify_spec (d : JSString) : JSString :=
  match d with
  | [] => []
  | _ =>
      if leadingIn 1 d 4 4 then str "Visa"
      else if leadingIn 2 d 51 55 || leadingIn 4 d 2221 2720
      then str "Mastercard"
      else if leadingIn 2 d 34 34 || leadingIn 2 d 37 37
      then str "American Express"
      else if leadingIn 4 d 6011 6011 || leadingIn 2 d 65 65
              || leadingIn 3 d 644 649
      then str "Discover"
      else if leadingIn 2 d 35 35 then str "JCB"
      else if leadingIn 2 d 36 36 || leadingIn 2 d 38 38
              || leadingIn 3 d 300 305
      then str "Diners Club"
      else if leadingIn 2 d 62 62 then str "UnionPay"
      else str "Unknown"
  end.

(** All the strings of [n] digits (used to decide statements about
    prefixes by enumeration). *)
Definition digitChars : list ascii := str "0123456789".

Fixpoint digitStrings (n : nat) : list JSString :=
  match n with
  | 0 => [[]]
  | S n' => flat_map (fun c => map (cons c) (digitStrings n')) digitChars
  end.

(** ** Grouping, as the formatter's contract words it *)

(** The digits [d], with one space before each digit whose index (counted
    from [i]) satisfies [P]. *)
Fixpoint spaced (P : nat -> bool) (i : nat) (d : JSString) : JSString :=
  match d with
  | [] => []
  | c :: d' => (if P i then str " " else []) ++ c :: spaced P (S i) d'
  end.

(** A space before every 4th digit, except before the first digit. *)
Definition groupsOf4 (d : JSString) : JSString :=
  spaced (fun i => (0 <? i) && (i mod 4 =? 0)) 0 d.

(** Consecutive groups of 4, 6 and 5 digits; a space follows a group when
    digits remain to start the next group. *)
Definition groups465 (d : JSString) : JSString :=
  let g1 := firstn 4 d in
  let r1 := skipn 4 d in
  let g2 := firstn 6 r1 in
  let r2 := skipn 6 r1 in
  let g3 := firstn 5 r2 in
  g1 ++ (if 0 <? length r1 then str " " else []) ++ g2
     ++ (if 0 <? length r2 then str " " else []) ++ g3.

(** The digits the card formatter keeps. *)
Definition cardDigits (raw : JSString) : JSString :=
  let digits := removeNonDigits raw in
  firstn (if isProbablyAmex digits then 15 else 16) digits.

Definition countDigits (s : JSString) : nat := length (removeNonDigits s).

(** Every character that is not a digit is a space that stands between
    two digits: no separator at the start, at the end, or next to another
    separator. *)
Definition separatorsIsolated (f : JSString) : Prop :=
  forall (i : nat) (c : ascii),
    nth_error f i = Some c -> isDigit c = false ->
    c = " "%char
    /\ exists (j : nat) (a b : ascii),
         i = S j
         /\ nth_error f j = Some a /\ isDigit a = true
         /\ nth_error f (S i) = Some b /\ isDigit b = true.

(** The same, decided on the string; [prev] tells whether the character
    before [f] is a digit. *)
Fixpoint sepOk (prev : bool) (f : JSString) : bool :=
  match f with
  | [] => prev
  | c :: f' =>
      if isDigit c then sepOk true f'
      else Ascii.eqb c " " && prev && sepOk false f'
  end.

Definition wellSeparated (f : JSString) : bool :=
  match f with
  | [] => true
  | _ :: _ => sepOk false f
  end.

(** ** The aggregate *)

(** All three statuses are [valid]. *)
Definition statusesAllValid (this : CreditCardInput) : bool :=
  Status_eqb (_cardStatus this) valid
  && Status_eqb (_expiryStatus this) valid
  && Status_eqb (_cvvStatus this) valid.

(** The engine after [_checkAllValid], and the all-valid notification that
    goes with it: none when the boolean is the one already announced. *)
Definition checked (this : CreditCardInput) : CreditCardInput :=
  if negb (Bool.eqb (_allValid this) (statusesAllValid this))
  then set_allValid this (statusesAllValid this) else this.

Definition allValidNotification (before after : bool)
  : list (JSString * list Value) :=
  if Bool.eqb before after then []
  else [(str "allValid", [VAllValid {| isAllValid := after |}])].

(** The engine after an update of one field. *)
Definition afterCard (this : CreditCardInput) (v : JSString) : CreditCardInput :=
  let ev := cardEvent this v in
  checked (set_card this (card_type ev) (card_isAmex ev) (card_status ev)).

Definition afterExpiry (this : CreditCardInput) (v : JSString) (d : Date)
  : CreditCardInput :=
  checked (set_expiryStatus this (expiry_status (expiryEvent v d))).

Definition afterCvv (this : CreditCardInput) (v : JSString) : CreditCardInput :=
  checked (set_cvvStatus this (cvv_status (cvvEvent this v))).

(** The notifications named [name] in a record of emissions. *)
Definition notifications (name : JSString)
  (l : list (JSString * list Value)) : list (list Value) :=
  map snd (List.filter (fun e => str_eqb (fst e) name) l).

(** ** A sample host

    The host state is trivial, listeners throw numbers; listener 0 always
    throws, every other listener returns.  Listeners 0 and 1 are subscribed
    to the three field events, listener 1 to [allValid]; the clock shows
    June 2024. *)
Definition sampleCall (listener : Listener) (_ : list Value)
  (w : World unit nat) : World unit nat * Completion nat :=
  (w, if listener =? 0 then Throw 42 else Normal).

Definition sampleEmitter : EventEmitterLite :=
  on (str "allValid") 1
    (on (str "cvvStatusChange") 1 (on (str "cvvStatusChange") 0
      (on (str "expiryStatusChange") 1 (on (str "expiryStatusChange") 0
        (on (str "cardStatusChange") 1 (on (str "cardStatusChange") 0
          {| events := ∅; logErrors := true |})))))).

Definition sampleSys (card expiry cvv : JSString) : Sys unit nat :=
  {| world :=
       {| host := tt;
          cardInput := mkInput card 0;
          expiryInput := mkInput expiry 0;
          cvvInput := mkInput cvv 0;
          eventEmitter := sampleEmitter;
          console := [];
          now := mkDate 2024 5 |};
     emitted := [];
     applied := [] |}.

Definition sampleEngine : CreditCardInput :=
  new_CreditCardInput None None None None.

(** The engine once the card number and the expiry date are valid. *)
Definition twoValid : CreditCardInput :=
  set_expiryStatus (set_card sampleEngine (str "Visa") false valid) valid.

(** * Further definitions *)

(** ** EventEmitterLite: removing listeners *)

(** [array.findIndex(p)]; [None] stands for [-1]. *)
Fixpoint findIndex {A : Type} (p : A -> bool) (l : list A) : option nat :=
  match l with
  | [] => None
  | x :: l' => if p x then Some 0 else option_map S (findIndex p l')
  end.

(** [array.splice(idx, 1)]: what is left in the array. *)
Definition splice1 {A : Type} (idx : nat) (l : list A) : list A :=
  firstn idx l ++ skipn (S idx) l.

Section Emitter.

(** [l[ORIGINAL]]: the listener a wrapper made by [once] stands for;
    [None] for a function without that property. *)
Variable original : Listener -> option Listener.

(** [l === listener || l[ORIGINAL] === listener] *)
Definition sameListener (listener l : Listener) : bool :=
  (l =? listener)
  || match original l with Some o => o =? listener | None => false end.

(** [EventEmitterLite.removeListener] (the listener is a function).  The
    unsubscriber that [on event listener] returns is
    [removeListener event listener]. *)
Definition removeListener (event : JSString) (listener : Listener)
  (this : EventEmitterLite) : EventEmitterLite :=
  match events this !! event with
  | None => this
  | Some listeners =>
      match findIndex (sameListener listener) listeners with
      | Some idx =>
          let listeners := splice1 idx listeners in
          if length listeners =? 0
          then {| events := delete event (events this);
                  logErrors := logErrors this |}
          else {| events := <[event := listeners]> (events this);
                  logErrors := logErrors this |}
      | None => this
      end
  end.

(** [EventEmitterLite.off] *)
Definition off (event : JSString) (listener : Listener)
  (this : EventEmitterLite) : EventEmitterLite :=
  removeListener event listener this.

End Emitter.

(** No event is mapped to an empty array of listeners. *)
Definition noEmptyQueue (this : EventEmitterLite) : Prop :=
  forall (event : JSString) (listeners : list Listener),
    events this !! event = Some listeners -> listeners <> [].

(** The first element that satisfies [p] removed. *)
Fixpoint removeFirst {A : Type} (p : A -> bool) (l : list A) : list A :=
  match l with
  | [] => []
  | x :: l' => if p x then l' else x :: removeFirst p l'
  end.

(** The world with another emitter in it. *)
Definition set_eventEmitter {Host Exn : Type} (em : EventEmitterLite)
  (w : World Host Exn) : World Host Exn :=
  {| host := host w; cardInput := cardInput w; expiryInput := expiryInput w;
     cvvInput := cvvInput w; eventEmitter := em;
     console := console w; now := now w |}.

(** ** The input events of a session *)

(** What the user did to a field: the element as the browser leaves it
    (new value and caret) when it fires [input]. *)
Inductive InputEvent : Type :=
| CardInput (typed : HTMLInputElement)
| ExpiryInput (typed : HTMLInputElement)
| CvvInput (typed : HTMLInputElement).

Section Session.

Variable Host : Type.
Variable Exn : Type.
Variable call :
  Listener -> list Value -> World Host Exn -> World Host Exn * Completion Exn.

(** The browser updates the element, then runs the handler [init]
    installed on it. *)
Definition dispatch (this : CreditCardInput) (e : InputEvent)
  : M Host Exn CreditCardInput :=
  match e with
  | CardInput typed =>
      bind (update_world (set_cardInput typed))
        (fun _ => onCardInput call this)
  | ExpiryInput typed =>
      bind (update_world (set_expiryInput typed))
        (fun _ => onExpiryInput call this)
  | CvvInput typed =>
      bind (update_world (set_cvvInput typed))
        (fun _ => onCvvInput call this)
  end.

Fixpoint run (es : list InputEvent) (this : CreditCardInput)
  : M Host Exn CreditCardInput :=
  match es with
  | [] => ret this
  | e :: es' => bind (dispatch this e) (run es')
  end.

(** [init], then the input events in order. *)
Definition session (this : CreditCardInput) (es : list InputEvent)
  : M Host Exn CreditCardInput :=
  bind (init call this) (run es).

End Session.

Arguments dispatch {Host Exn}.
Arguments run {Host Exn}.
Arguments session {Host Exn}.

(** Each boolean differs from the one before it, the first from [prev]. *)
Fixpoint alternates (prev : bool) (l : list bool) : bool :=
  match l with
  | [] => true
  | b :: l' => negb (Bool.eqb prev b) && alternates b l'
  end.

(** The character of a decimal digit value. *)
Definition digitChar (v : Z) : ascii := ascii_of_nat (48 + Z.to_nat v).

(** The system after the host changed the subscriptions (a call of [on]
    or of an unsubscriber between two events). *)
Definition change_emitter {Host Exn : Type}
  (f : EventEmitterLite -> EventEmitterLite) (s : Sys Host Exn)
  : Sys Host Exn :=
  {| world := set_eventEmitter (f (eventEmitter (world s))) (world s);
     emitted := emitted s;
     applied := applied s |}.

(** The system after the element of the card field was changed. *)
Definition change_cardInput {Host Exn : Type}
  (f : HTMLInputElement -> HTMLInputElement) (s : Sys Host Exn)
  : Sys Host Exn :=
  {| world := set_cardInput (f (cardInput (world s))) (world s);
     emitted := emitted s;
     applied := applied s |}.

(** Between two records of emissions, the all-valid notifications that
    were added carry booleans that alternate, starting from the other
    value than [old] and ending on [new] ([new = old] when none was
    added). *)
Definition allValidTracked (old new : bool)
  (before after : list (JSString * list Value)) : Prop :=
  exists notes : list bool,
    notifications (str "allValid") after
    = notifications (str "allValid") before
      ++ map (fun b => [VAllValid {| isAllValid := b |}]) notes
    /\ alternates old notes = true
    /\ List.last notes old = new.

(** * Properties *)

Example getCardType_visa : getCardType (str "4111111111111110") = str "Visa".
Proof. reflexivity. Qed.

Example luhnChecksum_4111_1 : luhnChecksum (str "4111111111111111") = Num 0.
Proof. reflexivity. Qed.

Example formatCardNumber_12345 :
  formatCardNumber (mkInput (str "12345") 5) = mkInput (str "1234 5") 6.
Proof. reflexivity. Qed.

Example formatCardNumber_amex :
  formatCardNumber (mkInput (str "3400-0000-0000-009xx7") 3)
  = mkInput (str "3400 000000 00009") 3.
Proof. reflexivity. Qed.

Example formatExpiry_1234 :
  formatExpiry (mkInput (str "12/345") 4) = mkInput (str "12 / 34") 6.
Proof. reflexivity. Qed.

(** ** Characters and digits *)

Lemma isDigit_digitOf_range (c : ascii) :
  isDigit c = true -> (0 <= digitOf c <= 9)%Z.
Proof.
  unfold isDigit, digitOf. intros H.
  apply andb_prop in H as [H1 H2].
  apply Nat.leb_le in H1. apply Nat.leb_le in H2. lia.
Qed.

Lemma parseInt_digit (c : ascii) (radix10 : bool) :
  isDigit c = true ->
  parseInt [c] (if radix10 then Some 10%Z else None) = Num (digitOf c).
Proof.
  destruct c as [[] [] [] [] [] [] [] []]; try discriminate;
    destruct radix10; intros _; reflexivity.
Qed.

Lemma allDigits_nth (s : JSString) (i : nat) (c : ascii) :
  allDigits s = true -> nth_error s i = Some c -> isDigit c = true.
Proof.
  unfold allDigits. rewrite forallb_forall. intros H Hn.
  apply H. eapply nth_error_In. exact Hn.
Qed.

Lemma allDigits_removeNonDigits (s : JSString) :
  allDigits (removeNonDigits s) = true.
Proof.
  unfold allDigits, removeNonDigits. apply forallb_forall.
  intros c Hc. apply filter_In in Hc. tauto.
Qed.

Lemma removeNonDigits_id (s : JSString) :
  allDigits s = true -> removeNonDigits s = s.
Proof.
  unfold allDigits, removeNonDigits. induction s as [|c s IH]; simpl; [easy|].
  intros H. apply andb_prop in H as [Hc Hs]. rewrite Hc, IH; auto.
Qed.

(** ** Luhn *)

Lemma luhnTerm_range (code : JSString) (i : nat) :
  allDigits code = true -> (0 <= luhnTerm code i <= 9)%Z.
Proof.
  intros Hd. unfold luhnTerm, digitAt.
  destruct (nth_error code i) as [c|] eqn:Hc.
  - pose proof (isDigit_digitOf_range c (allDigits_nth _ _ _ Hd Hc)) as R.
    destruct (i mod 2 =? length code mod 2);
      [destruct (Z.ltb_spec 9 (2 * digitOf c))|]; lia.
  - destruct (i mod 2 =? length code mod 2); simpl; lia.
Qed.

Lemma luhnStep_term (code : JSString) (a : Z) (i : nat) :
  allDigits code = true -> i < length code ->
  luhnStep code (length code mod 2) (Num a) i = Num (a + luhnTerm code i).
Proof.
  intros Hd Hi. unfold luhnStep, luhnTerm, digitAt, charAt.
  destruct (nth_error code i) as [c|] eqn:Hc.
  2:{ apply nth_error_None in Hc. lia. }
  pose proof (allDigits_nth _ _ _ Hd Hc) as Dc.
  rewrite (parseInt_digit c false Dc).
  pose proof (isDigit_digitOf_range c Dc) as R.
  destruct (i mod 2 =? length code mod 2); simpl.
  - replace (digitOf c * 2)%Z with (2 * digitOf c)%Z by lia.
    destruct (Z.ltb_spec 9 (2 * digitOf c)); simpl; reflexivity.
  - destruct (Z.ltb_spec 9 (digitOf c)); [lia|]. reflexivity.
Qed.

Lemma luhn_fold (code : JSString) (l : list nat) (a : Z) :
  allDigits code = true -> Forall (fun i => i < length code) l ->
  fold_left (luhnStep code (length code mod 2)) l (Num a)
  = Num (a + sumZ (map (luhnTerm code) l)).
Proof.
  intros Hd Hl. revert a.
  induction Hl as [|i l Hi Hl IH]; intros a;
    cbn [fold_left map sumZ fold_right].
  - f_equal. lia.
  - rewrite luhnStep_term by assumption. rewrite IH. f_equal.
    fold (sumZ (map (luhnTerm code) l)). lia.
Qed.

Lemma sumZ_nonneg (code : JSString) (l : list nat) :
  allDigits code = true -> (0 <= sumZ (map (luhnTerm code) l))%Z.
Proof.
  intros Hd. induction l as [|i l IH]; simpl; [lia|].
  pose proof (luhnTerm_range code i Hd). lia.
Qed.

Lemma luhnChecksum_correct (code : JSString) :
  allDigits code = true -> luhnChecksum code = Num (luhnChecksum_spec code).
Proof.
  intros Hd. unfold luhnChecksum, luhnChecksum_spec.
  rewrite luhn_fold; [|assumption|].
  - simpl. f_equal. apply Z.rem_mod_nonneg; [|lia].
    apply sumZ_nonneg, Hd.
  - apply List.Forall_forall. intros i Hi. apply in_rev, in_seq in Hi. lia.
Qed.

(** C5. On a string of digits [luhnChecksum] is the sum, over the positions
    from the last to the first, of the digit doubled (minus 9 above 9) at
    the positions whose parity is the parity of the length and of the digit
    itself elsewhere, modulo 10, a number in 0..9.  [luhnValidate] removes
    the non-digits, is false below two digits and otherwise tells whether
    that checksum is 0; it accepts 4111111111111111 and rejects
    4111111111111112 and 0. *)
Theorem luhn_checksum_and_validate :
  (forall code : JSString, allDigits code = true ->
     luhnChecksum code = Num (luhnChecksum_spec code)
     /\ (0 <= luhnChecksum_spec code <= 9)%Z)
  /\ (forall raw : JSString,
        luhnValidate raw
        = if length (removeNonDigits raw) <? 2 then false
          else (luhnChecksum_spec (removeNonDigits raw) =? 0)%Z)
  /\ luhnValidate (str "4111111111111111") = true
  /\ luhnValidate (str "4111111111111112") = false
  /\ luhnValidate (str "0") = false.
Proof.
  split; [|split; [|repeat split; reflexivity]].
  - intros code Hd. split; [apply luhnChecksum_correct, Hd|].
    unfold luhnChecksum_spec.
    pose proof (Z.mod_pos_bound
      (sumZ (map (luhnTerm code) (rev (seq 0 (length code))))) 10). lia.
  - intros raw. unfold luhnValidate.
    destruct (length (removeNonDigits raw) <? 2); [reflexivity|].
    rewrite luhnChecksum_correct by apply allDigits_removeNonDigits.
    reflexivity.
Qed.

Lemma luhn_checksum_and_validate_witness :
  allDigits (str "79927398713") = true
  /\ luhnChecksum (str "79927398713") = Num (luhnChecksum_spec (str "79927398713"))
  /\ luhnChecksum_spec (str "79927398713") = 0%Z.
Proof.
  split; [reflexivity|].
  split; [apply (proj1 luhn_checksum_and_validate); reflexivity | reflexivity].
Defined.

(** Two strings of digits that differ in their last digit only have
    different checksums: the last digit is never doubled.  So at most one
    completion of a prefix has checksum 0. *)
Lemma luhnTerm_prefix (p : JSString) (a b : ascii) (i : nat) :
  i < length p -> luhnTerm (p ++ [a]) i = luhnTerm (p ++ [b]) i.
Proof.
  intros H. unfold luhnTerm, digitAt.
  rewrite !length_app, !nth_error_app1 by assumption. reflexivity.
Qed.

Lemma luhnTerm_last (p : JSString) (a : ascii) :
  luhnTerm (p ++ [a]) (length p) = digitOf a.
Proof.
  unfold luhnTerm, digitAt.
  rewrite nth_error_app2, Nat.sub_diag, length_app by lia.
  cbn [nth_error length].
  replace (length p + 1) with (S (length p)) by lia.
  destruct (Nat.eqb_spec (length p mod 2) (S (length p) mod 2)) as [E|_];
    [|reflexivity].
  exfalso.
  pose proof (Nat.div_mod_eq (length p) 2).
  pose proof (Nat.div_mod_eq (S (length p)) 2).
  pose proof (Nat.mod_upper_bound (length p) 2).
  lia.
Qed.

Lemma luhnChecksum_spec_snoc (p : JSString) (a : ascii) :
  luhnChecksum_spec (p ++ [a])
  = ((digitOf a
      + sumZ (map (luhnTerm (p ++ [a])) (rev (seq 0 (length p))))) mod 10)%Z.
Proof.
  unfold luhnChecksum_spec. rewrite length_app. cbn [length].
  replace (length p + 1) with (S (length p)) by lia.
  rewrite seq_S, rev_app_distr. cbn [rev app map sumZ fold_right Nat.add].
  rewrite luhnTerm_last. reflexivity.
Qed.

Lemma luhn_last_digit_matters (p : JSString) (a b : ascii) :
  isDigit a = true -> isDigit b = true -> a <> b ->
  luhnChecksum_spec (p ++ [a]) <> luhnChecksum_spec (p ++ [b]).
Proof.
  intros Da Db Hne. rewrite !luhnChecksum_spec_snoc.
  assert (S : map (luhnTerm (p ++ [a])) (rev (seq 0 (length p)))
              = map (luhnTerm (p ++ [b])) (rev (seq 0 (length p)))).
  { apply map_ext_in. intros i Hi. apply in_rev, in_seq in Hi.
    apply luhnTerm_prefix. lia. }
  rewrite S. set (x := sumZ _).
  pose proof (isDigit_digitOf_range a Da) as Ra.
  pose proof (isDigit_digitOf_range b Db) as Rb.
  assert (Hd : digitOf a <> digitOf b).
  { unfold digitOf. intros E. apply Hne.
    rewrite <- (ascii_nat_embedding a), <- (ascii_nat_embedding b).
    f_equal. lia. }
  intros E.
  pose proof (Z.div_mod (digitOf a + x) 10).
  pose proof (Z.div_mod (digitOf b + x) 10).
  lia.
Qed.

(** The sum of terms gives 9 on 4111111111111110 as well. *)
Lemma luhnChecksum_spec_4111111111111110 :
  luhnChecksum_spec (str "4111111111111110") = 9%Z.
Proof. reflexivity. Qed.

(** The [@example] comment of [luhnChecksum] announces 0 for
    4111111111111110; the function does not return it. *)
Lemma luhnChecksum_4111111111111110_not_0 :
  luhnChecksum (str "4111111111111110") <> Num 0.
Proof. vm_compute. discriminate. Qed.

(** C6. [luhnChecksum] evaluated at 4111111111111110, the input of its
    [@example] comment (which says 0): the function returns 9. *)
Theorem luhnChecksum_4111111111111110 :
  luhnChecksum (str "4111111111111110") = Num 9.
Proof. reflexivity. Qed.

(** ** The classifier *)

Lemma isDigit_In (c : ascii) : isDigit c = true -> In c digitChars.
Proof.
  destruct c as [[] [] [] [] [] [] [] []]; try discriminate;
    intros _; vm_compute; tauto.
Qed.

Lemma digitStrings_complete (s : JSString) :
  allDigits s = true -> In s (digitStrings (length s)).
Proof.
  induction s as [|c s IH]; [simpl; tauto|].
  intros H. apply andb_prop in H as [Hc Hs].
  cbn [length digitStrings]. apply in_flat_map. exists c. split; [apply isDigit_In, Hc|].
  apply in_map, IH, Hs.
Qed.

Lemma allDigits_firstn (n : nat) (s : JSString) :
  allDigits s = true -> allDigits (firstn n s) = true.
Proof.
  unfold allDigits. revert s.
  induction n as [|n IH]; intros [|c s]; simpl; try reflexivity.
  intros H. apply andb_prop in H as [Hc Hs]. rewrite Hc. simpl. auto.
Qed.

Lemma getCardType_firstn4 (d : JSString) :
  getCardType d = getCardType (firstn 4 d).
Proof. destruct d as [|a [|b [|c [|e rest]]]]; reflexivity. Qed.

Lemma classify_spec_firstn4 (d : JSString) :
  classify_spec d = classify_spec (firstn 4 d).
Proof. destruct d as [|a [|b [|c [|e rest]]]]; reflexivity. Qed.

Lemma getCardType_upto4 :
  forallb (fun n =>
    forallb (fun s => str_eqb (getCardType s) (classify_spec s))
      (digitStrings n)) [0; 1; 2; 3; 4] = true.
Proof. vm_compute. reflexivity. Qed.

Lemma str_eqb_eq (s t : JSString) : str_eqb s t = true -> s = t.
Proof.
  revert t. induction s as [|a s IH]; destruct t as [|b t]; simpl;
    try discriminate; [reflexivity|].
  intros H. apply andb_prop in H as [Hab Hst].
  apply Ascii.eqb_eq in Hab. f_equal; auto.
Qed.

Lemma getCardType_classify (d : JSString) :
  allDigits d = true -> getCardType d = classify_spec d.
Proof.
  intros Hd. rewrite getCardType_firstn4, classify_spec_firstn4.
  pose proof (allDigits_firstn 4 d Hd) as H4.
  pose proof (digitStrings_complete _ H4) as Hin.
  assert (Hlen : In (length (firstn 4 d)) [0; 1; 2; 3; 4]).
  { pose proof (length_firstn 4 d) as L. simpl.
    destruct (length (firstn 4 d)) as [|[|[|[|[|n]]]]]; try tauto. lia. }
  pose proof getCardType_upto4 as Hall.
  rewrite forallb_forall in Hall. specialize (Hall _ Hlen).
  rewrite forallb_forall in Hall. apply str_eqb_eq, Hall, Hin.
Qed.

(** C4. On a string of digits [getCardType] returns the empty string for
    the empty string and otherwise the label of the first rule that
    matches, in the order Visa (first digit 4), Mastercard (first two in
    51..55 or first four in 2221..2720), American Express (34, 37),
    Discover (6011, 65, first three in 644..649), JCB (35), Diners Club
    (36, 38, first three in 300..305), UnionPay (62), Unknown; a rule on
    more leading digits than the string has does not match.  Strings that
    start with 4111 are Visa, with 5500 Mastercard; 340000000000009 is
    American Express and 6011000000000004 is Discover. *)
Theorem getCardType_rules :
  (forall d : JSString, allDigits d = true -> getCardType d = classify_spec d)
  /\ getCardType [] = []
  /\ getCardType (str "5") = str "Unknown"
  /\ (forall rest : JSString, getCardType (str "4111" ++ rest) = str "Visa")
  /\ (forall rest : JSString, getCardType (str "5500" ++ rest) = str "Mastercard")
  /\ getCardType (str "340000000000009") = str "American Express"
  /\ getCardType (str "6011000000000004") = str "Discover".
Proof.
  split; [exact getCardType_classify|].
  repeat split; try reflexivity; intros rest; reflexivity.
Qed.

Lemma getCardType_rules_witness :
  allDigits (str "2720990000000007") = true
  /\ getCardType (str "2720990000000007") = classify_spec (str "2720990000000007")
  /\ classify_spec (str "2720990000000007") = str "Mastercard".
Proof.
  split; [reflexivity|].
  split; [apply (proj1 getCardType_rules); reflexivity | reflexivity].
Defined.

(** ** Strings *)

Lemma substring_0 (s : JSString) (k : nat) : substring s 0 k = firstn k s.
Proof.
  unfold substring. simpl. rewrite Nat.sub_0_r.
  destruct (Nat.le_ge_cases k (length s)) as [H|H].
  - rewrite Nat.min_l by assumption. reflexivity.
  - rewrite Nat.min_r by assumption.
    rewrite (firstn_all2 (n := k)) by assumption.
    apply firstn_all.
Qed.

Lemma substring_2_4 (s : JSString) : substring s 2 4 = firstn 2 (skipn 2 s).
Proof.
  destruct s as [|a [|b [|c [|d s]]]]; reflexivity.
Qed.

Lemma slice_0 (s : JSString) (k : nat) : slice s 0 k = firstn k s.
Proof. unfold slice. simpl. rewrite Nat.sub_0_r. reflexivity. Qed.

Lemma index_text_middle (pre suf : JSString) (c : ascii) :
  index_text (pre ++ c :: suf) (length pre) = [c].
Proof.
  unfold index_text. rewrite nth_error_app2 by lia.
  rewrite Nat.sub_diag. reflexivity.
Qed.

(** ** The two grouping loops *)

Lemma plain_fold (pre suf acc : JSString) :
  fold_left (plainStep (pre ++ suf)) (seq (length pre) (length suf)) acc
  = acc ++ spaced (fun i => (0 <? i) && (i mod 4 =? 0)) (length pre) suf.
Proof.
  revert pre acc. induction suf as [|c suf IH]; intros pre acc.
  - simpl. rewrite app_nil_r. reflexivity.
  - cbn [length seq fold_left spaced].
    replace (pre ++ c :: suf) with ((pre ++ [c]) ++ suf)
      by (rewrite <- app_assoc; reflexivity).
    replace (S (length pre)) with (length (pre ++ [c]))
      by (rewrite length_app; simpl; lia).
    rewrite IH. unfold plainStep.
    replace ((pre ++ [c]) ++ suf) with (pre ++ c :: suf)
      by (rewrite <- app_assoc; reflexivity).
    rewrite index_text_middle.
    replace (length (pre ++ [c])) with (S (length pre))
      by (rewrite length_app; simpl; lia).
    destruct ((0 <? length pre) && (length pre mod 4 =? 0));
      rewrite <- ?app_assoc; reflexivity.
Qed.

Lemma plainFormatted_groupsOf4 (d : JSString) : plainFormatted d = groupsOf4 d.
Proof. unfold plainFormatted. exact (plain_fold [] d []). Qed.

Lemma firstn_S_index_text (d : JSString) (k : nat) :
  k < length d -> firstn (S k) d = firstn k d ++ index_text d k.
Proof.
  revert k. induction d as [|c d IH]; intros k Hk; [simpl in Hk; lia|].
  destruct k as [|k]; [reflexivity|].
  simpl in Hk. rewrite firstn_cons. rewrite IH by lia.
  unfold index_text. reflexivity.
Qed.

Lemma amexInner_iter (d f : JSString) (g idx : nat) :
  idx <= length d ->
  Nat.iter g (amexInner d) (f, idx)
  = (f ++ firstn g (skipn idx d), Nat.min (idx + g) (length d)).
Proof.
  intros Hidx. induction g as [|g IH].
  - simpl. rewrite app_nil_r, Nat.add_0_r, Nat.min_l by lia. reflexivity.
  - cbn [Nat.iter nat_rect]. fold (Nat.iter g (amexInner d) (f, idx)).
    rewrite IH. unfold amexInner.
    destruct (Nat.ltb_spec (Nat.min (idx + g) (length d)) (length d)) as [H|H].
    + assert (Hg : idx + g < length d) by lia.
      rewrite (Nat.min_l (idx + g)) by lia.
      rewrite (Nat.min_l (idx + S g)) by lia.
      rewrite firstn_S_index_text by (rewrite length_skipn; lia).
      unfold index_text. rewrite nth_error_skipn.
      rewrite <- app_assoc. f_equal. lia.
    + assert (Hg : length d <= idx + g) by lia.
      rewrite (Nat.min_r (idx + g)) by lia.
      rewrite (Nat.min_r (idx + S g)) by lia.
      rewrite !firstn_all2 by (rewrite length_skipn; lia). reflexivity.
Qed.

Lemma skipn_clamp (d : JSString) (a b : nat) :
  Nat.min a (length d) = Nat.min b (length d) -> skipn a d = skipn b d.
Proof.
  intros H.
  destruct (Nat.le_gt_cases (length d) a) as [Ha|Ha];
    destruct (Nat.le_gt_cases (length d) b) as [Hb|Hb].
  - rewrite !skipn_all2 by assumption. reflexivity.
  - lia.
  - lia.
  - f_equal. lia.
Qed.

Lemma amexOuter_step (d f : JSString) (idx i : nat) :
  idx <= length d ->
  amexOuter d [4; 6; 5] (f, idx) i
  = let g := nth i [4; 6; 5] 0 in
    let idx' := Nat.min (idx + g) (length d) in
    (f ++ firstn g (skipn idx d)
       ++ (if (idx' <? length d) && (i <? 2) then str " " else []), idx').
Proof.
  intros H. unfold amexOuter. rewrite amexInner_iter by assumption.
  cbn [length Nat.sub]. cbv zeta.
  destruct ((Nat.min (idx + nth i [4; 6; 5] 0) (length d) <? length d) && (i <? 2)).
  - rewrite <- app_assoc. reflexivity.
  - rewrite app_nil_r. reflexivity.
Qed.

Lemma amexFormatted_groups465 (d : JSString) : amexFormatted d = groups465 d.
Proof.
  unfold amexFormatted, groups465. cbn [length seq fold_left].
  rewrite amexOuter_step by lia. cbv zeta. cbn [nth].
  rewrite amexOuter_step by lia. cbv zeta. cbn [nth].
  rewrite amexOuter_step by lia. cbv zeta. cbn [nth fst].
  rewrite (skipn_clamp d (Nat.min (0 + 4) (length d)) 4) by lia.
  rewrite (skipn_clamp d
             (Nat.min (Nat.min (0 + 4) (length d) + 6) (length d)) (6 + 4))
    by lia.
  rewrite <- (skipn_skipn 6 4 d).
  rewrite !length_skipn.
  replace (Nat.min (0 + 4) (length d) <? length d) with (0 <? length d - 4)
    by (destruct (Nat.ltb_spec 0 (length d - 4));
        destruct (Nat.ltb_spec (Nat.min (0 + 4) (length d)) (length d)); lia).
  replace (Nat.min (Nat.min (0 + 4) (length d) + 6) (length d) <? length d)
    with (0 <? length d - 4 - 6)
    by (destruct (Nat.ltb_spec 0 (length d - 4 - 6));
        destruct (Nat.ltb_spec
                    (Nat.min (Nat.min (0 + 4) (length d) + 6) (length d))
                    (length d)); lia).
  cbn [Nat.ltb Nat.leb andb skipn].
  rewrite !andb_true_r, andb_false_r, app_nil_r.
  cbn [app]. rewrite <- !app_assoc. reflexivity.
Qed.

(** ** Digits with spaces *)

Lemma isDigit_space : isDigit " " = false.
Proof. reflexivity. Qed.

Lemma removeNonDigits_spaced (P : nat -> bool) (i : nat) (d : JSString) :
  allDigits d = true -> removeNonDigits (spaced P i d) = d.
Proof.
  revert i. induction d as [|c d IH]; intros i H; [reflexivity|].
  simpl in H. apply andb_prop in H as [Hc Hd].
  cbn [spaced]. unfold removeNonDigits in *.
  rewrite List.filter_app. cbn [List.filter]. rewrite Hc, IH by assumption.
  destruct (P i); reflexivity.
Qed.

Lemma sepOk_spaced (P : nat -> bool) (i : nat) (d : JSString) :
  allDigits d = true -> sepOk true (spaced P i d) = true.
Proof.
  revert i. induction d as [|c d IH]; intros i H; [reflexivity|].
  simpl in H. apply andb_prop in H as [Hc Hd].
  cbn [spaced]. destruct (P i); simpl; rewrite Hc; simpl; auto.
Qed.

Lemma wellSeparated_spaced (P : nat -> bool) (i : nat) (d : JSString) :
  allDigits d = true -> P i = false -> wellSeparated (spaced P i d) = true.
Proof.
  destruct d as [|c d]; intros H Hi; [reflexivity|].
  simpl in H. apply andb_prop in H as [Hc Hd].
  cbn [spaced]. rewrite Hi. simpl. rewrite Hc.
  apply sepOk_spaced, Hd.
Qed.

Lemma sepOk_isolated (f : JSString) :
  forall (prev : bool), sepOk prev f = true ->
  forall (i : nat) (c : ascii),
    nth_error f i = Some c -> isDigit c = false ->
    c = " "%char
    /\ match i with
       | 0 => prev = true
       | S j => exists a, nth_error f j = Some a /\ isDigit a = true
       end
    /\ exists b, nth_error f (S i) = Some b /\ isDigit b = true.
Proof.
  induction f as [|c0 f IH]; intros prev Hf i c Hi Hc.
  - destruct i; discriminate.
  - destruct i as [|j].
    + simpl in Hi. injection Hi as ->. simpl in Hf. rewrite Hc in Hf.
      apply andb_prop in Hf as [Hf Hn]. apply andb_prop in Hf as [Hsp Hp].
      apply Ascii.eqb_eq in Hsp. repeat split; try assumption.
      destruct f as [|b f]; [discriminate|]. simpl in Hn.
      destruct (isDigit b) eqn:Hb.
      * exists b. split; [reflexivity | assumption].
      * rewrite andb_false_r in Hn. discriminate.
    + cbn [nth_error] in Hi. simpl in Hf.
      destruct (isDigit c0) eqn:H0.
      * destruct (IH _ Hf j c Hi Hc) as (E & Hprev & Hnext).
        repeat split; try assumption.
        destruct j as [|k]; [exists c0; split; [reflexivity | assumption]|].
        exact Hprev.
      * apply andb_prop in Hf as [_ Hf].
        destruct (IH _ Hf j c Hi Hc) as (E & Hprev & Hnext).
        repeat split; try assumption.
        destruct j as [|k]; [discriminate|]. exact Hprev.
Qed.

Lemma wellSeparated_isolated (f : JSString) :
  wellSeparated f = true -> separatorsIsolated f.
Proof.
  intros H i c Hi Hc. destruct f as [|c0 f]; [destruct i; discriminate|].
  destruct (sepOk_isolated _ _ H i c Hi Hc) as (E & Hprev & (b & Hb & Db)).
  split; [exact E|]. destruct i as [|j]; [discriminate|].
  destruct Hprev as (a & Ha & Da). exists j, a, b. repeat split; assumption.
Qed.

Lemma groups465_spaced (d : JSString) :
  length d <= 15 ->
  groups465 d = spaced (fun i => (i =? 4) || (i =? 10)) 0 d.
Proof.
  intros H.
  do 16 (destruct d as [|? d]; [reflexivity|]).
  simpl in H. lia.
Qed.

Lemma groups465_length (d : JSString) :
  length d = 15 -> length (groups465 d) = 17.
Proof.
  intros H.
  do 15 (destruct d as [|? d]; [discriminate|]).
  destruct d; [reflexivity | discriminate].
Qed.

Lemma groupsOf4_length (d : JSString) :
  length d = 16 -> length (groupsOf4 d) = 19.
Proof.
  intros H.
  do 16 (destruct d as [|? d]; [discriminate|]).
  destruct d; [reflexivity | discriminate].
Qed.

(** ** formatCardNumber: the value *)

Lemma startsWith_nil (d : JSString) : startsWith d [] = true.
Proof. destruct d; reflexivity. Qed.

Lemma isProbablyAmex_prefix (d : JSString) :
  isProbablyAmex d = true
  <-> 2 <= length d /\ (firstn 2 d = str "34" \/ firstn 2 d = str "37").
Proof.
  unfold isProbablyAmex. destruct d as [|a [|b d]].
  - simpl. split; [discriminate | lia].
  - simpl. split; [discriminate | lia].
  - cbn [length firstn startsWith str list_ascii_of_string Nat.leb andb].
    rewrite startsWith_nil, !andb_true_r.
    split.
    + intros H. split; [lia|]. apply orb_prop in H as [H|H];
        apply andb_prop in H as [Ha Hb];
        apply Ascii.eqb_eq in Ha, Hb; subst; auto.
    + intros [_ [H|H]]; injection H as -> ->; reflexivity.
Qed.

Lemma isProbablyAmex_firstn (k : nat) (d : JSString) :
  2 <= k -> isProbablyAmex (firstn k d) = isProbablyAmex d.
Proof.
  intros Hk. destruct k as [|[|k]]; try lia.
  destruct d as [|a [|b d]]; try reflexivity.
  unfold isProbablyAmex. simpl. rewrite !startsWith_nil. reflexivity.
Qed.

Lemma formatCardNumber_value_eq (raw : JSString) (cursor : nat) :
  value (formatCardNumber (mkInput raw cursor))
  = if isProbablyAmex (removeNonDigits raw)
    then groups465 (cardDigits raw) else groupsOf4 (cardDigits raw).
Proof.
  unfold formatCardNumber, cardDigits. cbn [value setSelectionRange set_value].
  destruct (isProbablyAmex (removeNonDigits raw));
    rewrite substring_0;
    [apply amexFormatted_groups465 | apply plainFormatted_groupsOf4].
Qed.

Lemma cardDigits_allDigits (raw : JSString) : allDigits (cardDigits raw) = true.
Proof. apply allDigits_firstn, allDigits_removeNonDigits. Qed.

Lemma cardDigits_length (raw : JSString) :
  length (cardDigits raw)
  <= if isProbablyAmex (removeNonDigits raw) then 15 else 16.
Proof. unfold cardDigits. rewrite length_firstn. lia. Qed.

(** The formatted card number is the kept digits with isolated spaces. *)
Lemma formatCardNumber_spaced (raw : JSString) (cursor : nat) :
  exists P : nat -> bool,
    P 0 = false
    /\ value (formatCardNumber (mkInput raw cursor)) = spaced P 0 (cardDigits raw).
Proof.
  rewrite formatCardNumber_value_eq.
  pose proof (cardDigits_length raw) as L.
  destruct (isProbablyAmex (removeNonDigits raw)).
  - exists (fun i => (i =? 4) || (i =? 10)). split; [reflexivity|].
    apply groups465_spaced, L.
  - exists (fun i => (0 <? i) && (i mod 4 =? 0)). split; reflexivity.
Qed.

(** C1. The value [formatCardNumber] writes: with [digits] the input
    without its non-digits, [isAmex] true iff [digits] has at least two
    characters and starts with 34 or 37, and the digits cut to 15 for Amex
    and 16 otherwise, the value is the kept digits in groups of 4, 6 and 5
    with a space after a group only when digits remain (Amex), or with a
    space before every 4th digit except the first (otherwise).  Removing
    the non-digits from the value gives back the kept digits, 15 Amex
    digits give length 17 and 16 other digits length 19, and every
    separator is a single space between two digits. *)
Theorem formatCardNumber_value (raw : JSString) (cursor : nat) :
  let digits := removeNonDigits raw in
  let isAmex := isProbablyAmex digits in
  let kept := firstn (if isAmex then 15 else 16) digits in
  let out := value (formatCardNumber (mkInput raw cursor)) in
  (isAmex = true
   <-> 2 <= length digits
       /\ (firstn 2 digits = str "34" \/ firstn 2 digits = str "37"))
  /\ out = (if isAmex then groups465 kept else groupsOf4 kept)
  /\ removeNonDigits out = kept
  /\ (isAmex = true -> length kept = 15 -> length out = 17)
  /\ (isAmex = false -> length kept = 16 -> length out = 19)
  /\ separatorsIsolated out.
Proof.
  cbv zeta. fold (cardDigits raw).
  split; [apply isProbablyAmex_prefix|].
  split; [apply formatCardNumber_value_eq|].
  destruct (formatCardNumber_spaced raw cursor) as (P & P0 & E).
  split; [rewrite E; apply removeNonDigits_spaced, cardDigits_allDigits|].
  split; [|split].
  - intros A L. rewrite formatCardNumber_value_eq, A.
    apply groups465_length, L.
  - intros A L. rewrite formatCardNumber_value_eq, A.
    apply groupsOf4_length, L.
  - rewrite E. apply wellSeparated_isolated, wellSeparated_spaced;
      [apply cardDigits_allDigits | exact P0].
Qed.

Lemma formatCardNumber_value_witness :
  value (formatCardNumber (mkInput (str "3782-822463-10005 x") 7))
  = str "3782 822463 10005"
  /\ length (value (formatCardNumber (mkInput (str "3782-822463-10005 x") 7)))
     = 17.
Proof.
  split; [reflexivity|].
  apply (proj1 (proj2 (proj2 (proj2
           (formatCardNumber_value (str "3782-822463-10005 x") 7)))));
    reflexivity.
Defined.

(** ** The cursor loop *)

Lemma countDigits_firstn_S (f : JSString) (pos : nat) :
  countDigits (firstn (S pos) f)
  = countDigits (firstn pos f) + (if testDigitAt f pos then 1 else 0).
Proof.
  unfold countDigits, testDigitAt, removeNonDigits.
  revert pos. induction f as [|c f IH]; intros pos.
  - destruct pos; reflexivity.
  - destruct pos as [|pos].
    + simpl. destruct (isDigit c); reflexivity.
    + rewrite firstn_cons. rewrite (firstn_cons pos). cbn [List.filter nth_error].
      destruct (isDigit c); cbn [length]; rewrite IH; reflexivity.
Qed.

Lemma countDigits_firstn_le (f : JSString) (p : nat) :
  countDigits (firstn p f) <= countDigits f.
Proof.
  unfold countDigits, removeNonDigits.
  revert p. induction f as [|c f IH]; intros [|p]; simpl; try lia.
  specialize (IH p). destruct (isDigit c); simpl; lia.
Qed.

(** The loop keeps [digitCount] equal to the number of digits before
    [newCursorPos], stops at the first position where that number reaches
    [n], and [length f - newCursorPos] iterations are enough for it to
    reach its exit. *)
Lemma remapLoop_spec (f : JSString) (n : nat) :
  forall (fuel pos cnt : nat),
    length f - pos <= fuel -> pos <= length f ->
    cnt = countDigits (firstn pos f) -> cnt <= n ->
    (forall q, q < pos -> countDigits (firstn q f) < n) ->
    let '(p, c) := remapLoop fuel f n pos cnt in
    p <= length f
    /\ c = countDigits (firstn p f)
    /\ c <= n
    /\ (forall q, q < p -> countDigits (firstn q f) < n)
    /\ (p <? length f) && (c <? n) = false.
Proof.
  induction fuel as [|fuel IH]; intros pos cnt Hfuel Hpos Hcnt Hle Hmin;
    cbn [remapLoop];
    destruct ((pos <? length f) && (cnt <? n)) eqn:G;
    try (repeat split; assumption).
  - apply andb_prop in G as [G _]. apply Nat.ltb_lt in G. lia.
  - apply andb_prop in G as [G1 G2].
    apply Nat.ltb_lt in G1. apply Nat.ltb_lt in G2.
    apply IH.
    + lia.
    + lia.
    + rewrite countDigits_firstn_S, <- Hcnt.
      destruct (testDigitAt f pos); lia.
    + destruct (testDigitAt f pos); lia.
    + intros q Hq. destruct (Nat.eq_dec q pos) as [->|Hne].
      * rewrite <- Hcnt. exact G2.
      * apply Hmin. lia.
Qed.

(** More fuel does not change the result of the loop. *)
Lemma remapLoop_fuel (f : JSString) (n : nat) :
  forall (fuel fuel' pos cnt : nat),
    length f - pos <= fuel -> length f - pos <= fuel' ->
    remapLoop fuel f n pos cnt = remapLoop fuel' f n pos cnt.
Proof.
  induction fuel as [|fuel IH]; intros fuel' pos cnt H H';
    destruct fuel' as [|fuel']; cbn [remapLoop];
    destruct ((pos <? length f) && (cnt <? n)) eqn:G; try reflexivity;
    apply andb_prop in G as [G _]; apply Nat.ltb_lt in G; try lia.
  apply IH; lia.
Qed.

(** [remapCursor f n] is the least prefix length of [f] that holds [n]
    digits, or [length f] when [f] has fewer than [n] digits. *)
Lemma remapCursor_spec (f : JSString) (n : nat) :
  let p := remapCursor f n in
  p <= length f
  /\ (n <= countDigits f ->
      countDigits (firstn p f) = n
      /\ forall q, q < p -> countDigits (firstn q f) <> n)
  /\ (countDigits f < n -> p = length f).
Proof.
  cbv zeta. unfold remapCursor.
  pose proof (remapLoop_spec f n (length f) 0 0) as H.
  destruct (remapLoop (length f) f n 0 0) as [p c].
  destruct H as (Hp & Hc & Hle & Hmin & Hexit);
    [lia | lia | reflexivity | lia | intros q Hq; lia |].
  apply andb_false_iff in Hexit.
  destruct (Nat.lt_ge_cases c n) as [Hlt|Hge].
  - (* the string ran out *)
    assert (Hend : p = length f).
    { destruct Hexit as [E|E]; apply Nat.ltb_ge in E; lia. }
    subst p. rewrite firstn_all in Hc.
    apply Nat.ltb_lt in Hlt as Hb. rewrite Hb.
    repeat split; lia.
  - destruct (Nat.ltb_spec c n) as [?|_]; [lia|].
    pose proof (countDigits_firstn_le f p).
    repeat split; try lia.
    intros q Hq. specialize (Hmin q Hq). lia.
Qed.

Lemma formatCardNumber_cursor_eq (raw : JSString) (c : nat) :
  selectionStart (formatCardNumber (mkInput raw c))
  = remapCursor (value (formatCardNumber (mkInput raw c)))
      (countDigits (firstn c raw)).
Proof.
  unfold formatCardNumber. cbn [value selectionStart setSelectionRange set_value].
  rewrite slice_0. fold (countDigits (firstn c raw)).
  apply Nat.min_l. apply remapCursor_spec.
Qed.

Lemma formatExpiry_cursor_eq (raw : JSString) (c : nat) :
  selectionStart (formatExpiry (mkInput raw c))
  = remapCursor (value (formatExpiry (mkInput raw c)))
      (countDigits (firstn c raw)).
Proof.
  unfold formatExpiry. cbn [value selectionStart setSelectionRange set_value].
  rewrite slice_0. fold (countDigits (firstn c raw)).
  apply Nat.min_l. apply remapCursor_spec.
Qed.

(** C2. For [formatCardNumber] and [formatExpiry], with [n] the number of
    digits of the raw value strictly before the cursor [c], the new cursor
    is the least [p] such that the first [p] characters of the formatted
    value hold [n] digits, and the length of the formatted value when it
    holds fewer than [n] digits.  Raw 12345 with the cursor at 5 gives
    1234 5 with the cursor at 6. *)
Theorem cursor_remap (raw : JSString) (c : nat) (Hc : c <= length raw) :
  let n := countDigits (firstn c raw) in
  (forall format, format = formatCardNumber \/ format = formatExpiry ->
     let formatted := value (format (mkInput raw c)) in
     let p := selectionStart (format (mkInput raw c)) in
     p <= length formatted
     /\ (n <= countDigits formatted ->
         countDigits (firstn p formatted) = n
         /\ forall q, q < p -> countDigits (firstn q formatted) <> n)
     /\ (countDigits formatted < n -> p = length formatted))
  /\ formatCardNumber (mkInput (str "12345") 5) = mkInput (str "1234 5") 6.
Proof.
  cbv zeta. split; [|reflexivity].
  intros format [-> | ->].
  - rewrite formatCardNumber_cursor_eq. apply remapCursor_spec.
  - rewrite formatExpiry_cursor_eq. apply remapCursor_spec.
Qed.

Lemma cursor_remap_witness :
  4 <= length (str "12/345")
  /\ selectionStart (formatExpiry (mkInput (str "12/345") 4)) = 6
  /\ countDigits (firstn 6 (value (formatExpiry (mkInput (str "12/345") 4))))
     = countDigits (firstn 4 (str "12/345")).
Proof.
  split; [vm_compute; lia|]. split; [reflexivity|].
  assert (H : 4 <= length (str "12/345")) by (vm_compute; lia).
  destruct (cursor_remap (str "12/345") 4 H) as [G _].
  destruct (G formatExpiry (or_intror eq_refl)) as (_ & G2 & _).
  apply G2. vm_compute. lia.
Defined.

(** ** Idempotence of the formatters *)

Lemma formatCvv_value_eq (raw : JSString) (c : nat) :
  value (formatCvv (mkInput raw c)) = firstn 4 (removeNonDigits raw).
Proof.
  unfold formatCvv. cbn [value selectionStart set_value].
  rewrite substring_0.
  destruct (c <=? length (firstn 4 (removeNonDigits raw))); reflexivity.
Qed.

Lemma formatExpiry_value_eq (raw : JSString) (c : nat) :
  value (formatExpiry (mkInput raw c))
  = expiryFormatted (firstn 4 (removeNonDigits raw)).
Proof.
  unfold formatExpiry. cbn [value setSelectionRange set_value].
  rewrite substring_0. reflexivity.
Qed.

Lemma firstn_twice (k : nat) (s : JSString) :
  firstn k (firstn k s) = firstn k s.
Proof. rewrite firstn_firstn, Nat.min_id. reflexivity. Qed.

Lemma removeNonDigits_expiryFormatted (t : JSString) :
  allDigits t = true -> length t <= 4 ->
  removeNonDigits (expiryFormatted t) = t.
Proof.
  intros D L.
  destruct t as [|a [|b [|c [|d [|e t]]]]]; simpl in L; try lia;
    try (apply removeNonDigits_id; exact D);
    simpl in D; repeat (apply andb_prop in D as [?H D]);
    unfold expiryFormatted, removeNonDigits;
    cbn [length Nat.ltb Nat.leb substring Nat.min Nat.max Nat.sub firstn skipn
         app str list_ascii_of_string List.filter];
    repeat match goal with H : isDigit _ = true |- _ => rewrite H; clear H end;
    reflexivity.
Qed.

Lemma cardDigits_idem (raw f : JSString) :
  removeNonDigits f = cardDigits raw ->
  isProbablyAmex (removeNonDigits f) = isProbablyAmex (removeNonDigits raw)
  /\ cardDigits f = cardDigits raw.
Proof.
  intros E.
  assert (A : isProbablyAmex (removeNonDigits f)
              = isProbablyAmex (removeNonDigits raw)).
  { rewrite E. unfold cardDigits.
    destruct (isProbablyAmex (removeNonDigits raw)) eqn:F;
      rewrite isProbablyAmex_firstn by lia; exact F. }
  split; [exact A|].
  unfold cardDigits at 1. rewrite A, E. unfold cardDigits.
  apply firstn_twice.
Qed.

(** C10. Each formatter maps the value it produced to that same value,
    wherever the cursor is. *)
Theorem formatters_idempotent (raw : JSString) (c c' : nat) :
  value (formatCvv (mkInput (value (formatCvv (mkInput raw c))) c'))
  = value (formatCvv (mkInput raw c))
  /\ value (formatExpiry (mkInput (value (formatExpiry (mkInput raw c))) c'))
     = value (formatExpiry (mkInput raw c))
  /\ value (formatCardNumber
              (mkInput (value (formatCardNumber (mkInput raw c))) c'))
     = value (formatCardNumber (mkInput raw c)).
Proof.
  split; [|split].
  - rewrite !formatCvv_value_eq.
    rewrite removeNonDigits_id
      by apply allDigits_firstn, allDigits_removeNonDigits.
    apply firstn_twice.
  - rewrite !formatExpiry_value_eq.
    rewrite removeNonDigits_expiryFormatted.
    + rewrite firstn_twice. reflexivity.
    + apply allDigits_firstn, allDigits_removeNonDigits.
    + rewrite length_firstn. lia.
  - destruct (formatCardNumber_spaced raw c) as (P & P0 & E).
    assert (R : removeNonDigits (value (formatCardNumber (mkInput raw c)))
                = cardDigits raw).
    { rewrite E. apply removeNonDigits_spaced, cardDigits_allDigits. }
    destruct (cardDigits_idem raw _ R) as [A D].
    rewrite (formatCardNumber_value_eq (value _) c'), A, D.
    symmetry. apply formatCardNumber_value_eq.
Qed.

(** ** parseInt on strings of digits *)

Lemma digit_facts (c : ascii) :
  isDigit c = true ->
  isWhiteSpace c = false
  /\ Ascii.eqb c "-" = false
  /\ Ascii.eqb c "+" = false
  /\ digitValue 10 c = Some (digitOf c).
Proof.
  destruct c as [[] [] [] [] [] [] [] []]; try discriminate;
    intros _; repeat split; reflexivity.
Qed.

Lemma parseDigits_decimal (s : JSString) (a : Z) :
  allDigits s = true ->
  parseDigits 10 (Some a) s
  = Some (fold_left (fun a c => (a * 10 + digitOf c)%Z) s a).
Proof.
  revert a. induction s as [|c s IH]; intros a H; [reflexivity|].
  simpl in H. apply andb_prop in H as [Hc Hs].
  destruct (digit_facts c Hc) as (_ & _ & _ & V).
  cbn [parseDigits fold_left]. rewrite V. apply IH, Hs.
Qed.

Lemma parseInt_decimal (s : JSString) :
  allDigits s = true -> s <> [] -> parseInt s (Some 10%Z) = Num (decimal s).
Proof.
  intros H Hne. destruct s as [|c s]; [congruence|].
  simpl in H. apply andb_prop in H as [Hc Hs].
  destruct (digit_facts c Hc) as (W & Mi & Pl & V).
  unfold parseInt. cbn [trimStart]. rewrite W, Mi, Pl.
  cbn [Z.eqb Z.ltb Z.compare Pos.compare Pos.compare_cont negb andb orb].
  assert (P : parseDigits 10 None (c :: s) = Some (decimal (c :: s))).
  { cbn [parseDigits]. rewrite V. unfold decimal. cbn [fold_left].
    rewrite parseDigits_decimal by exact Hs. reflexivity. }
  destruct s as [|b s]; cbn [Pos.eqb andb];
    rewrite P; f_equal; destruct (decimal _); reflexivity.
Qed.

(** ** The expiry status *)

Lemma expiryEvent_neutral (v : JSString) (d : Date) :
  length (removeNonDigits v) <> 4 ->
  expiryEvent v d
  = {| expiry_status := neutral; expiry_value := v;
       expiry_digits := removeNonDigits v;
       expiry_month := None; expiry_year := None |}.
Proof.
  intros H. unfold expiryEvent.
  destruct (Nat.eqb_spec (length (removeNonDigits v)) 4); [contradiction|].
  reflexivity.
Qed.

Lemma expiryEvent_four (v : JSString) (cy cm0 : Z) :
  length (removeNonDigits v) = 4 ->
  let digits := removeNonDigits v in
  let m := decimal (firstn 2 digits) in
  let y := (decimal (firstn 2 (skipn 2 digits)) + 2000)%Z in
  let cm := (cm0 + 1)%Z in
  expiryEvent v (mkDate cy cm0)
  = {| expiry_status :=
         if (m <? 1)%Z || (12 <? m)%Z then invalid
         else if (y * 12 + m <? cy * 12 + cm)%Z
                 || ((cy + 10) * 12 + cm <? y * 12 + m)%Z
              then invalid else valid;
       expiry_value := v; expiry_digits := digits;
       expiry_month := Some (Num m); expiry_year := Some (Num y) |}.
Proof.
  intros L. cbv zeta. unfold expiryEvent. rewrite L. cbn [Nat.eqb].
  pose proof (allDigits_removeNonDigits v) as D.
  rewrite substring_0, substring_2_4.
  destruct (removeNonDigits v) as [|a [|b [|c [|e [|x t]]]]];
    try discriminate L.
  cbn [firstn skipn].
  simpl in D. repeat (apply andb_prop in D as [?H D]).
  rewrite !parseInt_decimal
    by (try discriminate; simpl;
        repeat match goal with H : isDigit _ = true |- _ => rewrite H end;
        reflexivity).
  reflexivity.
Qed.

Lemma expiryEvent_rule (v : JSString) (d : Date) :
  let digits := removeNonDigits v in
  let currentTotal := (getFullYear d * 12 + (getMonth d + 1))%Z in
  let ev := expiryEvent v d in
  expiry_digits ev = digits
  /\ (length digits <> 4 ->
      expiry_status ev = neutral
      /\ expiry_month ev = None /\ expiry_year ev = None)
  /\ (length digits = 4 ->
      let month := decimal (firstn 2 digits) in
      let year := (2000 + decimal (skipn 2 digits))%Z in
      let inputTotal := (year * 12 + month)%Z in
      expiry_month ev = Some (Num month)
      /\ expiry_year ev = Some (Num year)
      /\ ((month < 1 \/ 12 < month)%Z -> expiry_status ev = invalid)
      /\ ((1 <= month <= 12)%Z ->
          (expiry_status ev = valid
           <-> (currentTotal <= inputTotal <= currentTotal + 120)%Z)
          /\ (expiry_status ev = invalid
              <-> ~ (currentTotal <= inputTotal <= currentTotal + 120)%Z))).
Proof.
  cbv zeta. split; [|split].
  - unfold expiryEvent.
    destruct (length (removeNonDigits v) =? 4); reflexivity.
  - intros H. rewrite expiryEvent_neutral by exact H. repeat split.
  - intros L. destruct d as [cy cm0].
    pose proof (expiryEvent_four v cy cm0 L) as E. cbv zeta in E.
    assert (S2 : firstn 2 (skipn 2 (removeNonDigits v))
                 = skipn 2 (removeNonDigits v)).
    { apply firstn_all2. rewrite length_skipn. lia. }
    rewrite S2 in E. rewrite E. clear E S2.
    cbn [expiry_status expiry_month expiry_year getFullYear getMonth].
    set (m := decimal (firstn 2 (removeNonDigits v))).
    set (y := decimal (skipn 2 (removeNonDigits v))).
    split; [reflexivity|]. split; [f_equal; f_equal; lia|].
    split.
    + intros R.
      destruct (Z.ltb_spec m 1), (Z.ltb_spec 12 m); try reflexivity; lia.
    + intros R.
      destruct (Z.ltb_spec m 1), (Z.ltb_spec 12 m); try lia. cbn [orb].
      destruct (Z.ltb_spec ((y + 2000) * 12 + m) (cy * 12 + (cm0 + 1)));
        destruct (Z.ltb_spec ((cy + 10) * 12 + (cm0 + 1))
                    ((y + 2000) * 12 + m));
        cbn [orb]; (split; split; intro; try discriminate; try lia;
                    try reflexivity).
Qed.

(** ** The event emitter and the engine *)

Lemma checked_allValid (this : CreditCardInput) :
  _allValid (checked this) = statusesAllValid this.
Proof.
  unfold checked.
  destruct (Bool.eqb (_allValid this) (statusesAllValid this)) eqn:E;
    cbn [negb]; [apply eqb_prop, E | reflexivity].
Qed.

Lemma checked_statuses (this : CreditCardInput) :
  _cardStatus (checked this) = _cardStatus this
  /\ _expiryStatus (checked this) = _expiryStatus this
  /\ _cvvStatus (checked this) = _cvvStatus this
  /\ _cardType (checked this) = _cardType this
  /\ _isAmex (checked this) = _isAmex this
  /\ _getCardType (checked this) = _getCardType this.
Proof.
  unfold checked.
  destruct (negb (Bool.eqb (_allValid this) (statusesAllValid this)));
    repeat split; reflexivity.
Qed.

Lemma checked_invariant (this : CreditCardInput) :
  _allValid (checked this) = statusesAllValid (checked this).
Proof.
  rewrite checked_allValid. unfold statusesAllValid.
  destruct (checked_statuses this) as (-> & -> & -> & _). reflexivity.
Qed.

Lemma checked_fixed (this : CreditCardInput) :
  _allValid this = statusesAllValid this -> checked this = this.
Proof.
  intros E. unfold checked. rewrite E, eqb_reflx. reflexivity.
Qed.

Lemma allValidNotification_same (b : bool) : allValidNotification b b = [].
Proof. unfold allValidNotification. rewrite eqb_reflx. reflexivity. Qed.

(** Evaluating a field again, on the same value, changes nothing. *)
Lemma cardEvent_afterCard (this : CreditCardInput) (v : JSString) :
  cardEvent (afterCard this v) v = cardEvent this v.
Proof.
  unfold cardEvent at 1. unfold afterCard.
  destruct (checked_statuses
              (set_card this (card_type (cardEvent this v))
                 (card_isAmex (cardEvent this v))
                 (card_status (cardEvent this v))))
    as (_ & _ & _ & _ & _ & ->).
  reflexivity.
Qed.

Lemma set_card_afterCard (this : CreditCardInput) (v : JSString) :
  let ev := cardEvent this v in
  set_card (afterCard this v) (card_type ev) (card_isAmex ev) (card_status ev)
  = afterCard this v.
Proof.
  cbv zeta. unfold afterCard, checked.
  destruct (negb _); reflexivity.
Qed.

Lemma set_expiryStatus_afterExpiry (this : CreditCardInput) (v : JSString)
  (d : Date) :
  set_expiryStatus (afterExpiry this v d) (expiry_status (expiryEvent v d))
  = afterExpiry this v d.
Proof. unfold afterExpiry, checked. destruct (negb _); reflexivity. Qed.

Lemma cvvEvent_afterCvv (this : CreditCardInput) (v : JSString) :
  cvvEvent (afterCvv this v) v = cvvEvent this v.
Proof.
  unfold cvvEvent at 1. unfold afterCvv.
  destruct (checked_statuses
              (set_cvvStatus this (cvv_status (cvvEvent this v))))
    as (_ & _ & _ & _ & -> & _).
  reflexivity.
Qed.

Lemma set_cvvStatus_afterCvv (this : CreditCardInput) (v : JSString) :
  set_cvvStatus (afterCvv this v) (cvv_status (cvvEvent this v))
  = afterCvv this v.
Proof. unfold afterCvv, checked. destruct (negb _); reflexivity. Qed.

Section EngineProperties.

Context {Host Exn : Type}.
Variable call :
  Listener -> list Value -> World Host Exn -> World Host Exn * Completion Exn.

Lemma emitStep_returns (event : JSString) (args : list Value)
  (listener : Listener) (s : Sys Host Exn) :
  exists s', emitStep call event args listener s = (s', Returned tt)
    /\ emitted s' = emitted s
    /\ applied s' = applied s ++ [(listener, args)].
Proof.
  unfold emitStep, try_catch, apply.
  destruct (call listener args (world s)) as [w [|e]].
  - eexists. split; [reflexivity|]. split; reflexivity.
  - unfold bind, read, console_error, update_world, ret. cbn [world].
    destruct (logErrors (eventEmitter w));
      eexists; (split; [reflexivity|]); split; reflexivity.
Qed.

Lemma for_each_emitStep (event : JSString) (args : list Value)
  (queue : list Listener) (s : Sys Host Exn) :
  exists s', for_each queue (emitStep call event args) s = (s', Returned tt)
    /\ emitted s' = emitted s
    /\ applied s' = applied s ++ map (fun l => (l, args)) queue.
Proof.
  revert s. induction queue as [|l queue IH]; intros s.
  - exists s. cbn [for_each map]. rewrite app_nil_r. repeat split; reflexivity.
  - cbn [for_each map]. unfold bind at 1.
    destruct (emitStep_returns event args l s) as (s1 & E1 & Em1 & Ap1).
    rewrite E1.
    destruct (IH s1) as (s2 & E2 & Em2 & Ap2).
    exists s2. split; [exact E2|]. split; [congruence|].
    rewrite Ap2, Ap1, <- app_assoc. reflexivity.
Qed.

(** [EventEmitterLite.emit] returns, whatever the listeners do, after it
    applied every listener subscribed when it started, in order. *)
Lemma EventEmitterLite_emit_returns (event : JSString) (args : list Value)
  (s : Sys Host Exn) :
  exists s', EventEmitterLite_emit call event args s = (s', Returned tt)
    /\ emitted s' = emitted s
    /\ applied s'
       = applied s
         ++ map (fun l => (l, args))
              (default [] (events (eventEmitter (world s)) !! event)).
Proof.
  unfold EventEmitterLite_emit, bind at 1, read at 1.
  destruct (events (eventEmitter (world s)) !! event) as [ls|] eqn:L.
  - unfold bind, read. rewrite L. cbn [default].
    apply (for_each_emitStep event args ls s).
  - exists s. cbn [default map]. rewrite app_nil_r.
    repeat split; reflexivity.
Qed.

Lemma emit_returns (this : CreditCardInput) (event : JSString)
  (args : list Value) (s : Sys Host Exn) :
  exists s', emit call this event args s = (s', Returned tt)
    /\ emitted s' = emitted s ++ [(event, args)]
    /\ applied s'
       = applied s
         ++ map (fun l => (l, args ++ [VThis (getState this)]))
              (default [] (events (eventEmitter (world s)) !! event)).
Proof.
  unfold emit, bind.
  destruct (EventEmitterLite_emit_returns event
              (args ++ [VThis (getState this)])
              {| world := world s; emitted := emitted s ++ [(event, args)];
                 applied := applied s |}) as (s' & E & Em & Ap).
  exists s'. split; [exact E|]. split; [exact Em | exact Ap].
Qed.

Lemma _checkAllValid_returns (this : CreditCardInput) (s : Sys Host Exn) :
  exists s', _checkAllValid call this s = (s', Returned (checked this))
    /\ emitted s'
       = emitted s
         ++ allValidNotification (_allValid this) (statusesAllValid this).
Proof.
  unfold _checkAllValid, checked, allValidNotification.
  fold (statusesAllValid this).
  destruct (Bool.eqb (_allValid this) (statusesAllValid this)); cbn [negb].
  - exists s. unfold ret. rewrite app_nil_r. split; reflexivity.
  - unfold bind at 1.
    destruct (emit_returns (set_allValid this (statusesAllValid this))
                (str "allValid")
                [VAllValid {| isAllValid := statusesAllValid this |}] s)
      as (s' & E & Em & _).
    rewrite E. exists s'. split; [reflexivity | exact Em].
Qed.

Lemma _updateCardStatus_returns (this : CreditCardInput) (s : Sys Host Exn) :
  let v := value (cardInput (world s)) in
  let ev := cardEvent this v in
  let this1 := set_card this (card_type ev) (card_isAmex ev) (card_status ev) in
  exists s', _updateCardStatus call this s = (s', Returned (afterCard this v))
    /\ emitted s'
       = emitted s
         ++ (str "cardStatusChange", [VCard ev])
         :: allValidNotification (_allValid this1) (statusesAllValid this1).
Proof.
  cbv zeta. unfold _updateCardStatus, afterCard, bind at 1, read at 1.
  unfold bind at 1.
  destruct (emit_returns
              (set_card this
                 (card_type (cardEvent this (value (cardInput (world s)))))
                 (card_isAmex (cardEvent this (value (cardInput (world s)))))
                 (card_status (cardEvent this (value (cardInput (world s))))))
              (str "cardStatusChange")
              [VCard (cardEvent this (value (cardInput (world s))))] s)
    as (s1 & E1 & Em1 & _).
  rewrite E1.
  destruct (_checkAllValid_returns
              (set_card this
                 (card_type (cardEvent this (value (cardInput (world s)))))
                 (card_isAmex (cardEvent this (value (cardInput (world s)))))
                 (card_status (cardEvent this (value (cardInput (world s))))))
              s1) as (s2 & E2 & Em2).
  exists s2. split; [exact E2|].
  rewrite Em2, Em1, <- app_assoc. reflexivity.
Qed.

Lemma _updateExpiryStatus_returns (this : CreditCardInput) (s : Sys Host Exn) :
  let v := value (expiryInput (world s)) in
  let ev := expiryEvent v (now (world s)) in
  let this1 := set_expiryStatus this (expiry_status ev) in
  exists s',
    _updateExpiryStatus call this s
    = (s', Returned (afterExpiry this v (now (world s))))
    /\ emitted s'
       = emitted s
         ++ (str "expiryStatusChange", [VExpiry ev])
         :: allValidNotification (_allValid this1) (statusesAllValid this1).
Proof.
  cbv zeta. unfold _updateExpiryStatus, afterExpiry.
  unfold bind at 1, read at 1. unfold bind at 1, read at 1.
  unfold bind at 1.
  destruct (emit_returns
              (set_expiryStatus this
                 (expiry_status
                    (expiryEvent (value (expiryInput (world s)))
                       (now (world s)))))
              (str "expiryStatusChange")
              [VExpiry (expiryEvent (value (expiryInput (world s)))
                          (now (world s)))] s)
    as (s1 & E1 & Em1 & _).
  rewrite E1.
  destruct (_checkAllValid_returns
              (set_expiryStatus this
                 (expiry_status
                    (expiryEvent (value (expiryInput (world s)))
                       (now (world s)))))
              s1) as (s2 & E2 & Em2).
  exists s2. split; [exact E2|].
  rewrite Em2, Em1, <- app_assoc. reflexivity.
Qed.

Lemma _updateCvvStatus_returns (this : CreditCardInput) (s : Sys Host Exn) :
  let v := value (cvvInput (world s)) in
  let ev := cvvEvent this v in
  let this1 := set_cvvStatus this (cvv_status ev) in
  exists s', _updateCvvStatus call this s = (s', Returned (afterCvv this v))
    /\ emitted s'
       = emitted s
         ++ (str "cvvStatusChange", [VCvv ev])
         :: allValidNotification (_allValid this1) (statusesAllValid this1).
Proof.
  cbv zeta. unfold _updateCvvStatus, afterCvv, bind at 1, read at 1.
  unfold bind at 1.
  destruct (emit_returns
              (set_cvvStatus this
                 (cvv_status (cvvEvent this (value (cvvInput (world s))))))
              (str "cvvStatusChange")
              [VCvv (cvvEvent this (value (cvvInput (world s))))] s)
    as (s1 & E1 & Em1 & _).
  rewrite E1.
  destruct (_checkAllValid_returns
              (set_cvvStatus this
                 (cvv_status (cvvEvent this (value (cvvInput (world s))))))
              s1) as (s2 & E2 & Em2).
  exists s2. split; [exact E2|].
  rewrite Em2, Em1, <- app_assoc. reflexivity.
Qed.

(** The three per-field updates. *)
Lemma update_returns (this : CreditCardInput) (s : Sys Host Exn)
  (update : CreditCardInput -> M Host Exn CreditCardInput) :
  In update
    [_updateCardStatus call; _updateExpiryStatus call; _updateCvvStatus call] ->
  exists s' this' field,
    update this s = (s', Returned this')
    /\ _allValid this' = statusesAllValid this'
    /\ emitted s'
       = emitted s
         ++ field :: allValidNotification (_allValid this) (_allValid this')
    /\ str_eqb (fst field) (str "allValid") = false.
Proof.
  intros [<- | [<- | [<- | []]]].
  - destruct (_updateCardStatus_returns this s) as (s' & E & Em).
    cbv zeta in E, Em. eexists _, _, _. split; [exact E|].
    split; [apply checked_invariant|].
    split; [unfold afterCard; rewrite checked_allValid; exact Em | reflexivity].
  - destruct (_updateExpiryStatus_returns this s) as (s' & E & Em).
    cbv zeta in E, Em. eexists _, _, _. split; [exact E|].
    split; [apply checked_invariant|].
    split; [unfold afterExpiry; rewrite checked_allValid; exact Em | reflexivity].
  - destruct (_updateCvvStatus_returns this s) as (s' & E & Em).
    cbv zeta in E, Em. eexists _, _, _. split; [exact E|].
    split; [apply checked_invariant|].
    split; [unfold afterCvv; rewrite checked_allValid; exact Em | reflexivity].
Qed.

Lemma notifications_app (name : JSString) (l1 l2 : list (JSString * list Value)) :
  notifications name (l1 ++ l2) = notifications name l1 ++ notifications name l2.
Proof. unfold notifications. rewrite List.filter_app, map_app. reflexivity. Qed.

Lemma notifications_update (before after : bool)
  (l : list (JSString * list Value)) (field : JSString * list Value) :
  str_eqb (fst field) (str "allValid") = false ->
  notifications (str "allValid")
    (l ++ field :: allValidNotification before after)
  = notifications (str "allValid") l
    ++ (if Bool.eqb before after then []
        else [[VAllValid {| isAllValid := after |}]]).
Proof.
  intros F. rewrite notifications_app. f_equal.
  unfold notifications, allValidNotification. cbn [List.filter]. rewrite F.
  destruct (Bool.eqb before after); reflexivity.
Qed.

(** C7. After each field update the flag [_allValid] is the conjunction of
    the three statuses being [valid], and an [allValid] notification with
    the new boolean is emitted exactly when that boolean differs from the
    one held before; [init] runs the three updates and leaves the flag
    equal to the conjunction.  When an update makes all three statuses
    valid while the flag is false, one [allValid] notification with [true]
    is emitted, and later updates that keep them valid emit none. *)
Theorem allValid_tracking (this : CreditCardInput) (s : Sys Host Exn) :
  let updates :=
    [_updateCardStatus call; _updateExpiryStatus call; _updateCvvStatus call] in
  (forall update, In update updates ->
     exists s' this' field,
       update this s = (s', Returned this')
       /\ _allValid this' = statusesAllValid this'
       /\ str_eqb (fst field) (str "allValid") = false
       /\ emitted s'
          = emitted s
            ++ field
            :: (if Bool.eqb (_allValid this) (_allValid this') then []
                else [(str "allValid",
                       [VAllValid {| isAllValid := _allValid this' |}])]))
  /\ (exists s1 s2 s3 s4 this1 this2 this3,
        _updateCardStatus call this s = (s1, Returned this1)
        /\ _updateExpiryStatus call this1 s1 = (s2, Returned this2)
        /\ _updateCvvStatus call this2 s2 = (s3, Returned this3)
        /\ init call this s = (s4, Returned this3)
        /\ emitted s4 = emitted s3 ++ [(str "init", [])]
        /\ _allValid this3 = statusesAllValid this3)
  /\ (forall update s' this',
        In update updates ->
        update this s = (s', Returned this') ->
        _allValid this = false -> statusesAllValid this' = true ->
        _allValid this' = true
        /\ notifications (str "allValid") (emitted s')
           = notifications (str "allValid") (emitted s)
             ++ [[VAllValid {| isAllValid := true |}]]
        /\ forall update2 s2 s3 this3,
             In update2 updates ->
             update2 this' s2 = (s3, Returned this3) ->
             statusesAllValid this3 = true ->
             notifications (str "allValid") (emitted s3)
             = notifications (str "allValid") (emitted s2)).
Proof.
  cbv zeta. split; [|split].
  - intros update Hin.
    destruct (update_returns this s update Hin)
      as (s' & this' & field & E & I & Em & F).
    exists s', this', field. repeat split; assumption.
  - destruct (update_returns this s _ (or_introl eq_refl))
      as (s1 & this1 & f1 & E1 & _).
    destruct (update_returns this1 s1 _ (or_intror (or_introl eq_refl)))
      as (s2 & this2 & f2 & E2 & _).
    destruct (update_returns this2 s2 _
                (or_intror (or_intror (or_introl eq_refl))))
      as (s3 & this3 & f3 & E3 & I3 & _).
    destruct (emit_returns this3 (str "init") [] s3) as (s4 & E4 & Em4 & _).
    exists s1, s2, s3, s4, this1, this2, this3.
    repeat split; try assumption.
    unfold init, bind. rewrite E1, E2, E3, E4. reflexivity.
  - intros update s' this' Hin E B A.
    destruct (update_returns this s update Hin)
      as (s0 & this0 & field & E0 & I & Em & F).
    rewrite E in E0. injection E0 as <- <-.
    assert (T : _allValid this' = true) by congruence.
    split; [exact T|]. split.
    + rewrite Em, notifications_update by exact F. rewrite B, T. reflexivity.
    + intros update2 s2 s3 this3 Hin2 E2 A3.
      destruct (update_returns this' s2 update2 Hin2)
        as (s0 & this0 & field2 & E0 & I2 & Em2 & F2).
      rewrite E2 in E0. injection E0 as <- <-.
      rewrite Em2, notifications_update by exact F2.
      rewrite T, I2, A3. apply app_nil_r.
Qed.

(** C3. The expiry status [_updateExpiryStatus] stores and notifies, from
    the digits of the expiry field and the date read when it runs: neutral
    with null month and year unless there are exactly 4 digits; otherwise
    month is the first two digits and year 2000 plus the last two, the
    status is invalid when month is outside 1..12, and else valid exactly
    when [currentTotal <= year*12 + month <= currentTotal + 120], with
    [currentTotal = currentYear*12 + currentMonth], and invalid otherwise.
    In June 2024: 0624 valid, 0524 invalid, 0634 valid, 0635 invalid,
    1324 invalid, 062 neutral. *)
Theorem expiry_status_rule (this : CreditCardInput) (s : Sys Host Exn) :
  let v := value (expiryInput (world s)) in
  let digits := removeNonDigits v in
  let currentYear := getFullYear (now (world s)) in
  let currentMonth := (getMonth (now (world s)) + 1)%Z in
  let currentTotal := (currentYear * 12 + currentMonth)%Z in
  (exists s' this' ev rest,
     _updateExpiryStatus call this s = (s', Returned this')
     /\ emitted s'
        = emitted s ++ (str "expiryStatusChange", [VExpiry ev]) :: rest
     /\ _expiryStatus this' = expiry_status ev
     /\ expiry_digits ev = digits
     /\ (length digits <> 4 ->
         expiry_status ev = neutral
         /\ expiry_month ev = None /\ expiry_year ev = None)
     /\ (length digits = 4 ->
         let month := decimal (firstn 2 digits) in
         let year := (2000 + decimal (skipn 2 digits))%Z in
         let inputTotal := (year * 12 + month)%Z in
         expiry_month ev = Some (Num month)
         /\ expiry_year ev = Some (Num year)
         /\ ((month < 1 \/ 12 < month)%Z -> expiry_status ev = invalid)
         /\ ((1 <= month <= 12)%Z ->
             (expiry_status ev = valid
              <-> (currentTotal <= inputTotal <= currentTotal + 120)%Z)
             /\ (expiry_status ev = invalid
                 <-> ~ (currentTotal <= inputTotal <= currentTotal + 120)%Z))))
  /\ (let june2024 := {| getFullYear := 2024; getMonth := 5 |} in
      expiry_status (expiryEvent (str "0624") june2024) = valid
      /\ expiry_status (expiryEvent (str "0524") june2024) = invalid
      /\ expiry_status (expiryEvent (str "0634") june2024) = valid
      /\ expiry_status (expiryEvent (str "0635") june2024) = invalid
      /\ expiry_status (expiryEvent (str "1324") june2024) = invalid
      /\ expiryEvent (str "062") june2024
         = {| expiry_status := neutral; expiry_value := str "062";
              expiry_digits := str "062";
              expiry_month := None; expiry_year := None |}).
Proof.
  cbv zeta. split; [|repeat split; reflexivity].
  destruct (_updateExpiryStatus_returns this s) as (s' & E & Em).
  cbv zeta in E, Em.
  eexists s', _, _, _. split; [exact E|]. split; [exact Em|].
  split.
  { unfold afterExpiry.
    destruct (checked_statuses
                (set_expiryStatus this
                   (expiry_status
                      (expiryEvent (value (expiryInput (world s)))
                         (now (world s)))))) as (_ & -> & _).
    reflexivity. }
  apply (expiryEvent_rule (value (expiryInput (world s))) (now (world s))).
Qed.

(** C8. A listener that throws while an event is emitted does not stop the
    emission: [EventEmitterLite.emit] returns after it applied every
    listener subscribed to the event, in order and to the same arguments;
    the three field updates return as well, with the fields of the engine
    that the update computed. *)
Theorem listener_throw_contained (event : JSString) (args : list Value)
  (this : CreditCardInput) (s : Sys Host Exn) :
  (exists s',
     EventEmitterLite_emit call event args s = (s', Returned tt)
     /\ applied s'
        = applied s
          ++ map (fun l => (l, args))
               (default [] (events (eventEmitter (world s)) !! event)))
  /\ (exists s' this',
        _updateCardStatus call this s = (s', Returned this')
        /\ let ev := cardEvent this (value (cardInput (world s))) in
           _cardStatus this' = card_status ev
           /\ _cardType this' = card_type ev
           /\ _isAmex this' = card_isAmex ev
           /\ _allValid this' = statusesAllValid this')
  /\ (exists s' this',
        _updateExpiryStatus call this s = (s', Returned this')
        /\ _expiryStatus this'
           = expiry_status
               (expiryEvent (value (expiryInput (world s))) (now (world s)))
        /\ _allValid this' = statusesAllValid this')
  /\ (exists s' this',
        _updateCvvStatus call this s = (s', Returned this')
        /\ _cvvStatus this'
           = cvv_status (cvvEvent this (value (cvvInput (world s))))
        /\ _allValid this' = statusesAllValid this').
Proof.
  split; [|split; [|split]].
  - destruct (EventEmitterLite_emit_returns event args s) as (s' & E & _ & A).
    exists s'. split; assumption.
  - destruct (_updateCardStatus_returns this s) as (s' & E & _).
    cbv zeta in E. eexists s', _. split; [exact E|]. cbv zeta.
    unfold afterCard.
    destruct (checked_statuses
                (set_card this
                   (card_type (cardEvent this (value (cardInput (world s)))))
                   (card_isAmex (cardEvent this (value (cardInput (world s)))))
                   (card_status (cardEvent this (value (cardInput (world s)))))))
      as (-> & _ & _ & -> & -> & _).
    repeat split. apply checked_invariant.
  - destruct (_updateExpiryStatus_returns this s) as (s' & E & _).
    cbv zeta in E. eexists s', _. split; [exact E|].
    unfold afterExpiry. split; [|apply checked_invariant].
    destruct (checked_statuses
                (set_expiryStatus this
                   (expiry_status
                      (expiryEvent (value (expiryInput (world s)))
                         (now (world s)))))) as (_ & -> & _).
    reflexivity.
  - destruct (_updateCvvStatus_returns this s) as (s' & E & _).
    cbv zeta in E. eexists s', _. split; [exact E|].
    unfold afterCvv. split; [|apply checked_invariant].
    destruct (checked_statuses
                (set_cvvStatus this
                   (cvv_status (cvvEvent this (value (cvvInput (world s)))))))
      as (_ & _ & -> & _).
    reflexivity.
Qed.

(** C9. Each call of a field update emits its field notification once,
    followed only by the all-valid notification when the flag changes;
    evaluating the same field value again emits the same field
    notification again, with the same payload, and nothing else. *)
Theorem field_notification_on_every_update (this : CreditCardInput)
  (s : Sys Host Exn) :
  let vc := value (cardInput (world s)) in
  let ve := value (expiryInput (world s)) in
  let vv := value (cvvInput (world s)) in
  let d := now (world s) in
  (exists s',
     _updateCardStatus call this s = (s', Returned (afterCard this vc))
     /\ emitted s'
        = emitted s
          ++ (str "cardStatusChange", [VCard (cardEvent this vc)])
          :: allValidNotification (_allValid this)
               (_allValid (afterCard this vc))
     /\ forall s2 : Sys Host Exn,
          value (cardInput (world s2)) = vc ->
          exists s3,
            _updateCardStatus call (afterCard this vc) s2
            = (s3, Returned (afterCard this vc))
            /\ emitted s3
               = emitted s2
                 ++ [(str "cardStatusChange", [VCard (cardEvent this vc)])])
  /\ (exists s',
        _updateExpiryStatus call this s = (s', Returned (afterExpiry this ve d))
        /\ emitted s'
           = emitted s
             ++ (str "expiryStatusChange", [VExpiry (expiryEvent ve d)])
             :: allValidNotification (_allValid this)
                  (_allValid (afterExpiry this ve d))
        /\ forall s2 : Sys Host Exn,
             value (expiryInput (world s2)) = ve -> now (world s2) = d ->
             exists s3,
               _updateExpiryStatus call (afterExpiry this ve d) s2
               = (s3, Returned (afterExpiry this ve d))
               /\ emitted s3
                  = emitted s2
                    ++ [(str "expiryStatusChange",
                         [VExpiry (expiryEvent ve d)])])
  /\ (exists s',
        _updateCvvStatus call this s = (s', Returned (afterCvv this vv))
        /\ emitted s'
           = emitted s
             ++ (str "cvvStatusChange", [VCvv (cvvEvent this vv)])
             :: allValidNotification (_allValid this)
                  (_allValid (afterCvv this vv))
        /\ forall s2 : Sys Host Exn,
             value (cvvInput (world s2)) = vv ->
             exists s3,
               _updateCvvStatus call (afterCvv this vv) s2
               = (s3, Returned (afterCvv this vv))
               /\ emitted s3
                  = emitted s2
                    ++ [(str "cvvStatusChange", [VCvv (cvvEvent this vv)])]).
Proof.
  cbv zeta. split; [|split].
  - destruct (_updateCardStatus_returns this s) as (s' & E & Em).
    cbv zeta in E, Em. exists s'. split; [exact E|]. split.
    + unfold afterCard at 1. rewrite checked_allValid. exact Em.
    + intros s2 V.
      destruct (_updateCardStatus_returns
                  (afterCard this (value (cardInput (world s)))) s2)
        as (s3 & E3 & Em3).
      cbv zeta in E3, Em3. rewrite V in E3, Em3.
      rewrite cardEvent_afterCard in Em3.
      pose proof (set_card_afterCard this (value (cardInput (world s)))) as F.
      cbv zeta in F. rewrite F in Em3.
      assert (I : _allValid (afterCard this (value (cardInput (world s))))
                  = statusesAllValid
                      (afterCard this (value (cardInput (world s)))))
        by apply checked_invariant.
      rewrite <- I, allValidNotification_same in Em3.
      exists s3. split; [|exact Em3].
      rewrite E3. unfold afterCard at 1.
      rewrite cardEvent_afterCard, F. f_equal. f_equal.
      apply checked_fixed, I.
  - destruct (_updateExpiryStatus_returns this s) as (s' & E & Em).
    cbv zeta in E, Em. exists s'. split; [exact E|]. split.
    + unfold afterExpiry at 1. rewrite checked_allValid. exact Em.
    + intros s2 V D.
      destruct (_updateExpiryStatus_returns
                  (afterExpiry this (value (expiryInput (world s)))
                     (now (world s))) s2)
        as (s3 & E3 & Em3).
      cbv zeta in E3, Em3. rewrite V, D in E3, Em3.
      rewrite set_expiryStatus_afterExpiry in Em3.
      assert (I : _allValid (afterExpiry this (value (expiryInput (world s)))
                               (now (world s)))
                  = statusesAllValid
                      (afterExpiry this (value (expiryInput (world s)))
                         (now (world s))))
        by apply checked_invariant.
      rewrite <- I, allValidNotification_same in Em3.
      exists s3. split; [|exact Em3].
      rewrite E3. unfold afterExpiry at 1.
      rewrite set_expiryStatus_afterExpiry. f_equal. f_equal.
      apply checked_fixed, I.
  - destruct (_updateCvvStatus_returns this s) as (s' & E & Em).
    cbv zeta in E, Em. exists s'. split; [exact E|]. split.
    + unfold afterCvv at 1. rewrite checked_allValid. exact Em.
    + intros s2 V.
      destruct (_updateCvvStatus_returns
                  (afterCvv this (value (cvvInput (world s)))) s2)
        as (s3 & E3 & Em3).
      cbv zeta in E3, Em3. rewrite V in E3, Em3.
      rewrite cvvEvent_afterCvv in Em3.
      rewrite set_cvvStatus_afterCvv in Em3.
      assert (I : _allValid (afterCvv this (value (cvvInput (world s))))
                  = statusesAllValid
                      (afterCvv this (value (cvvInput (world s)))))
        by apply checked_invariant.
      rewrite <- I, allValidNotification_same in Em3.
      exists s3. split; [|exact Em3].
      rewrite E3. unfold afterCvv at 1.
      rewrite cvvEvent_afterCvv, set_cvvStatus_afterCvv. f_equal. f_equal.
      apply checked_fixed, I.
Qed.

End EngineProperties.

(** ** The sample host *)

Lemma expiry_status_rule_witness :
  exists s' this',
    _updateExpiryStatus sampleCall sampleEngine
      (sampleSys [] (str "06 / 34") []) = (s', Returned this')
    /\ _expiryStatus this' = valid.
Proof.
  destruct (proj1 (expiry_status_rule sampleCall sampleEngine
                     (sampleSys [] (str "06 / 34") [])))
    as (s' & this' & ev & rest & E & _ & St & _ & _ & H4).
  exists s', this'. split; [exact E|]. rewrite St.
  apply H4; [reflexivity | vm_compute; split; discriminate
            | vm_compute; split; discriminate].
Defined.

Lemma listener_throw_contained_witness :
  exists s',
    EventEmitterLite_emit sampleCall (str "cvvStatusChange") []
      (sampleSys [] [] (str "123")) = (s', Returned tt)
    /\ applied s' = [(0, []); (1, [])]
    /\ console (world s') = [(str "cvvStatusChange", 42)].
Proof.
  destruct (proj1 (listener_throw_contained sampleCall
                     (str "cvvStatusChange") [] sampleEngine
                     (sampleSys [] [] (str "123"))))
    as (s' & E & A).
  exists s'. split; [exact E|]. split; [rewrite A; reflexivity|].
  vm_compute in E. injection E as <-. reflexivity.
Defined.

Lemma allValid_tracking_witness :
  exists s' this',
    _updateCvvStatus sampleCall twoValid
      (sampleSys (str "4111 1111 1111 1111") (str "06 / 34") (str "123"))
    = (s', Returned this')
    /\ _allValid twoValid = false
    /\ _allValid this' = true
    /\ notifications (str "allValid") (emitted s')
       = [[VAllValid {| isAllValid := true |}]].
Proof.
  pose (s := sampleSys (str "4111 1111 1111 1111") (str "06 / 34") (str "123")).
  destruct (_updateCvvStatus_returns sampleCall twoValid s) as (s' & E & _).
  cbv zeta in E.
  exists s', (afterCvv twoValid (str "123")). split; [exact E|].
  split; [reflexivity|].
  destruct (proj2 (proj2 (allValid_tracking sampleCall twoValid s))
              (_updateCvvStatus sampleCall) s' (afterCvv twoValid (str "123"))
              (or_intror (or_intror (or_introl eq_refl))) E eq_refl eq_refl)
    as (T & N & _).
  split; [exact T | exact N].
Defined.

Lemma field_notification_on_every_update_witness :
  exists s1 s3 this',
    _updateCvvStatus sampleCall sampleEngine
      (sampleSys [] [] (str "12")) = (s1, Returned this')
    /\ _updateCvvStatus sampleCall this'
         (sampleSys (str "4") (str "0") (str "12")) = (s3, Returned this')
    /\ emitted s3
       = [(str "cvvStatusChange",
           [VCvv {| cvv_status := invalid; cvv_value := str "12";
                    cvv_digits := str "12"; cvv_expectedLength := 3;
                    cvv_isAmex := false |}])].
Proof.
  destruct (proj2 (proj2 (field_notification_on_every_update sampleCall
                            sampleEngine
                            (sampleSys [] [] (str "12")))))
    as (s1 & E & _ & Again).
  destruct (Again (sampleSys (str "4") (str "0") (str "12")) eq_refl)
    as (s3 & E3 & Em3).
  exists s1, s3, (afterCvv sampleEngine (str "12")).
  split; [exact E|]. split; [exact E3 | exact Em3].
Defined.

(** A run of [init] on the sample host: the events emitted, the listeners
    applied (listener 1 after listener 0, although that one throws) and
    what the console received. *)
Example init_sample :
  let s := fst (init sampleCall sampleEngine
                  (sampleSys (str "4111 1111 1111 1111") (str "06 / 34")
                     (str "123"))) in
  map fst (emitted s)
  = [str "cardStatusChange"; str "expiryStatusChange";
     str "cvvStatusChange"; str "allValid"; str "init"]
  /\ map fst (applied s) = [0; 1; 0; 1; 0; 1; 1]
  /\ map fst (console (world s))
     = [str "cardStatusChange"; str "expiryStatusChange";
        str "cvvStatusChange"].
Proof. vm_compute. repeat split; reflexivity. Qed.

(** An [input] event on the card field: the value is formatted, then the
    card and the CVV are evaluated; with an Amex number the CVV 123 is one
    digit short. *)
Example onCardInput_sample :
  let r := onCardInput sampleCall sampleEngine
             (sampleSys (str "378282246310005") [] (str "123")) in
  value (cardInput (world (fst r))) = str "3782 822463 10005"
  /\ map fst (emitted (fst r)) = [str "cardStatusChange"; str "cvvStatusChange"]
  /\ match snd r with
     | Returned this =>
         getState this
         = {| cardStatus := valid; expiryStatus := neutral;
              cvvStatus := invalid; cardType := str "American Express";
              isAmex := true; allValid := false |}
     | Thrown _ => False
     end.
Proof. vm_compute. repeat split; reflexivity. Qed.

(** * Further properties *)

(** ** Luhn: what the checksum detects *)

Lemma sumZ_one_differs (f g : nat -> Z) (i : nat) (l : list nat) :
  List.NoDup l -> (forall j, j <> i -> f j = g j) ->
  sumZ (map f l)
  = (sumZ (map g l) + if existsb (Nat.eqb i) l then f i - g i else 0)%Z.
Proof.
  intros ND H. induction ND as [|j l Hj ND IH]; [reflexivity|].
  cbn [map sumZ fold_right existsb].
  fold (sumZ (map f l)). fold (sumZ (map g l)). rewrite IH.
  destruct (Nat.eqb_spec i j) as [->|Hne]; cbn [orb].
  - assert (E : existsb (Nat.eqb j) l = false).
    { apply not_true_is_false. intros E.
      apply existsb_exists in E as (k & Hk & Ek).
      apply Nat.eqb_eq in Ek. subst k. apply Hj, Hk. }
    rewrite E. lia.
  - rewrite (H j) by congruence. lia.
Qed.

Lemma nth_error_replace (p s : JSString) (a b : ascii) (j : nat) :
  j <> length p -> nth_error (p ++ a :: s) j = nth_error (p ++ b :: s) j.
Proof.
  intros H. destruct (Nat.lt_ge_cases j (length p)) as [L|G].
  - rewrite !nth_error_app1 by assumption. reflexivity.
  - rewrite !nth_error_app2 by assumption.
    destruct (j - length p) as [|k] eqn:E; [lia | reflexivity].
Qed.

Lemma luhnTerm_replace (p s : JSString) (a b : ascii) (j : nat) :
  j <> length p -> luhnTerm (p ++ a :: s) j = luhnTerm (p ++ b :: s) j.
Proof.
  intros H. unfold luhnTerm, digitAt.
  rewrite (nth_error_replace p s a b j H), !length_app. reflexivity.
Qed.

Lemma luhnTerm_at (p s : JSString) (a : ascii) :
  luhnTerm (p ++ a :: s) (length p)
  = if length p mod 2 =? length (p ++ a :: s) mod 2
    then (if (9 <? 2 * digitOf a)%Z then 2 * digitOf a - 9 else 2 * digitOf a)%Z
    else digitOf a.
Proof.
  unfold luhnTerm, digitAt.
  rewrite nth_error_app2, Nat.sub_diag by lia. reflexivity.
Qed.

Lemma luhnChecksum_spec_replace (p s : JSString) (a b : ascii) :
  isDigit a = true -> isDigit b = true -> a <> b ->
  luhnChecksum_spec (p ++ a :: s) <> luhnChecksum_spec (p ++ b :: s).
Proof.
  intros Da Db Hne. unfold luhnChecksum_spec.
  assert (L : length (p ++ a :: s) = length (p ++ b :: s))
    by (rewrite !length_app; reflexivity).
  rewrite <- L.
  rewrite (sumZ_one_differs (luhnTerm (p ++ a :: s)) (luhnTerm (p ++ b :: s))
             (length p)).
  2:{ apply List.NoDup_rev, List.seq_NoDup. }
  2:{ intros j Hj. apply luhnTerm_replace, Hj. }
  assert (E : existsb (Nat.eqb (length p)) (rev (seq 0 (length (p ++ a :: s))))
              = true).
  { apply existsb_exists. exists (length p). split; [|apply Nat.eqb_refl].
    apply -> in_rev. apply in_seq. rewrite length_app. simpl. lia. }
  rewrite E, !luhnTerm_at, <- L.
  set (x := sumZ _).
  pose proof (isDigit_digitOf_range a Da) as Ra.
  pose proof (isDigit_digitOf_range b Db) as Rb.
  assert (Hd : digitOf a <> digitOf b).
  { unfold digitOf. intros F. apply Hne.
    rewrite <- (ascii_nat_embedding a), <- (ascii_nat_embedding b).
    f_equal. lia. }
  set (ta := if length p mod 2 =? length (p ++ a :: s) mod 2
             then (if (9 <? 2 * digitOf a)%Z then 2 * digitOf a - 9
                   else 2 * digitOf a)%Z else digitOf a).
  set (tb := if length p mod 2 =? length (p ++ a :: s) mod 2
             then (if (9 <? 2 * digitOf b)%Z then 2 * digitOf b - 9
                   else 2 * digitOf b)%Z else digitOf b).
  assert (T : (ta <> tb /\ -9 <= ta - tb <= 9)%Z).
  { subst ta tb. destruct (length p mod 2 =? length (p ++ a :: s) mod 2);
      [|lia].
    destruct (Z.ltb_spec 9 (2 * digitOf a)), (Z.ltb_spec 9 (2 * digitOf b));
      lia. }
  intros F.
  pose proof (Z.div_mod (x + (ta - tb)) 10).
  pose proof (Z.div_mod x 10).
  lia.
Qed.

Lemma allDigits_app (s t : JSString) :
  allDigits (s ++ t) = allDigits s && allDigits t.
Proof. unfold allDigits. apply forallb_app. Qed.

(** X1. Replacing one digit of a string of digits by a different digit
    changes the checksum; so a number that passes [luhnValidate] fails it
    after any single-digit error. *)
Theorem luhn_single_digit_error (p s : JSString) (a b : ascii)
  (Hp : allDigits p = true) (Hs : allDigits s = true)
  (Ha : isDigit a = true) (Hb : isDigit b = true) (Hab : a <> b) :
  luhnChecksum (p ++ a :: s) <> luhnChecksum (p ++ b :: s)
  /\ (luhnValidate (p ++ a :: s) = true -> luhnValidate (p ++ b :: s) = false).
Proof.
  assert (DA : allDigits (p ++ a :: s) = true).
  { rewrite allDigits_app. simpl. unfold allDigits in *. rewrite Hp, Ha, Hs.
    reflexivity. }
  assert (DB : allDigits (p ++ b :: s) = true).
  { rewrite allDigits_app. simpl. unfold allDigits in *. rewrite Hp, Hb, Hs.
    reflexivity. }
  pose proof (luhnChecksum_spec_replace p s a b Ha Hb Hab) as N.
  split.
  - rewrite !luhnChecksum_correct by assumption. congruence.
  - unfold luhnValidate. rewrite !removeNonDigits_id by assumption.
    rewrite !length_app. cbn [length].
    destruct (length p + S (length s) <? 2); [discriminate|].
    rewrite !luhnChecksum_correct by assumption. cbn [num_eqb].
    intros V. apply Z.eqb_eq in V. apply Z.eqb_neq. congruence.
Qed.

Lemma luhn_single_digit_error_witness :
  luhnValidate (str "4111111111111111") = true
  /\ luhnValidate (str "4111171111111111") = false.
Proof.
  split; [reflexivity|].
  apply (proj2 (luhn_single_digit_error (str "41111") (str "1111111111")
                  "1" "7" eq_refl eq_refl eq_refl eq_refl
                  ltac:(discriminate))).
  reflexivity.
Defined.

(** ** Luhn: the check digit *)

Lemma digitChar_digit (v : Z) :
  (0 <= v <= 9)%Z -> isDigit (digitChar v) = true /\ digitOf (digitChar v) = v.
Proof.
  intros R. unfold isDigit, digitOf, digitChar.
  rewrite nat_ascii_embedding by lia.
  split; [|lia].
  apply andb_true_intro. split; apply Nat.leb_le; lia.
Qed.

(** X2. Every string of digits has exactly one check digit: one digit
    that, appended, gives checksum 0 (and a number [luhnValidate] accepts,
    the string being non-empty). *)
Theorem luhn_check_digit (p : JSString) (Hp : allDigits p = true) :
  exists c : ascii,
    isDigit c = true
    /\ luhnChecksum (p ++ [c]) = Num 0
    /\ (p <> [] -> luhnValidate (p ++ [c]) = true)
    /\ forall c' : ascii,
         isDigit c' = true -> luhnChecksum (p ++ [c']) = Num 0 -> c' = c.
Proof.
  set (x := sumZ (map (luhnTerm (p ++ ["0"%char])) (rev (seq 0 (length p))))).
  set (v := ((10 - x mod 10) mod 10)%Z).
  assert (Rv : (0 <= v <= 9)%Z).
  { subst v. pose proof (Z.mod_pos_bound (10 - x mod 10) 10). lia. }
  destruct (digitChar_digit v Rv) as [Dc Vc].
  assert (D : forall c, isDigit c = true -> allDigits (p ++ [c]) = true).
  { intros c H. rewrite allDigits_app. simpl. unfold allDigits in *.
    rewrite Hp, H. reflexivity. }
  assert (S0 : luhnChecksum_spec (p ++ [digitChar v]) = 0%Z).
  { rewrite luhnChecksum_spec_snoc, Vc.
    assert (E : map (luhnTerm (p ++ [digitChar v])) (rev (seq 0 (length p)))
                = map (luhnTerm (p ++ ["0"%char])) (rev (seq 0 (length p)))).
    { apply map_ext_in. intros i Hi. apply in_rev, in_seq in Hi.
      apply luhnTerm_prefix. lia. }
    rewrite E. fold x. subst v.
    pose proof (Z.div_mod x 10). pose proof (Z.mod_pos_bound x 10).
    pose proof (Z.div_mod (10 - x mod 10) 10).
    pose proof (Z.mod_pos_bound (10 - x mod 10) 10).
    pose proof (Z.div_mod ((10 - x mod 10) mod 10 + x) 10).
    pose proof (Z.mod_pos_bound ((10 - x mod 10) mod 10 + x) 10).
    lia. }
  exists (digitChar v). split; [exact Dc|]. split; [|split].
  - rewrite luhnChecksum_correct by (apply D, Dc). f_equal. exact S0.
  - intros Hne. unfold luhnValidate.
    rewrite removeNonDigits_id by (apply D, Dc).
    rewrite length_app. cbn [length].
    destruct p as [|c0 p']; [congruence|].
    cbn [length Nat.add Nat.ltb Nat.leb].
    replace (length p' + 1) with (S (length p')) by lia.
    cbn [Nat.leb].
    rewrite luhnChecksum_correct by (apply D, Dc). rewrite S0. reflexivity.
  - intros c' Dc' Z0.
    rewrite luhnChecksum_correct in Z0 by (apply D, Dc').
    injection Z0 as Z0.
    destruct (Ascii.ascii_dec c' (digitChar v)) as [E|N]; [exact E|].
    exfalso. apply (luhn_last_digit_matters p c' (digitChar v) Dc' Dc N).
    congruence.
Qed.

Lemma luhn_check_digit_witness :
  exists c : ascii,
    isDigit c = true /\ luhnChecksum (str "411111111111111" ++ [c]) = Num 0.
Proof.
  destruct (luhn_check_digit (str "411111111111111") eq_refl)
    as (c & Dc & Z0 & _).
  exists c. split; assumption.
Defined.

(** ** The classifier and the Amex test *)

Lemma str_eqb_refl (s : JSString) : str_eqb s s = true.
Proof.
  induction s as [|c s IH]; [reflexivity|].
  simpl. rewrite Ascii.eqb_refl. exact IH.
Qed.

Lemma isProbablyAmex_upto4 :
  forallb (fun n =>
    forallb (fun s =>
      Bool.eqb (isProbablyAmex s)
        (str_eqb (getCardType s) (str "American Express")))
      (digitStrings n)) [0; 1; 2; 3; 4] = true.
Proof. vm_compute. reflexivity. Qed.

(** X3. On a string of digits [isProbablyAmex] agrees with the classifier:
    it is true exactly when [getCardType] answers American Express. *)
Theorem isProbablyAmex_getCardType (d : JSString) (Hd : allDigits d = true) :
  isProbablyAmex d = true <-> getCardType d = str "American Express".
Proof.
  rewrite <- (isProbablyAmex_firstn 4 d) by lia.
  rewrite getCardType_firstn4.
  pose proof (allDigits_firstn 4 d Hd) as H4.
  pose proof (digitStrings_complete _ H4) as Hin.
  assert (Hlen : In (length (firstn 4 d)) [0; 1; 2; 3; 4]).
  { pose proof (length_firstn 4 d) as L. simpl.
    destruct (length (firstn 4 d)) as [|[|[|[|[|n]]]]]; try tauto. lia. }
  pose proof isProbablyAmex_upto4 as Hall.
  rewrite forallb_forall in Hall. specialize (Hall _ Hlen).
  rewrite forallb_forall in Hall. specialize (Hall _ Hin).
  apply eqb_prop in Hall. rewrite Hall. split.
  - apply str_eqb_eq.
  - intros ->. apply str_eqb_refl.
Qed.

Lemma isProbablyAmex_getCardType_witness :
  isProbablyAmex (str "378282246310005") = true
  /\ getCardType (str "378282246310005") = str "American Express".
Proof.
  split; [reflexivity|].
  apply (proj1 (isProbablyAmex_getCardType (str "378282246310005") eq_refl)).
  reflexivity.
Defined.

(** X4. The answers settle early: once four characters are there, more
    characters do not change [getCardType], and once two are there they do
    not change [isProbablyAmex]. *)
Theorem classification_settles (d more : JSString) :
  (4 <= length d -> getCardType (d ++ more) = getCardType d)
  /\ (2 <= length d -> isProbablyAmex (d ++ more) = isProbablyAmex d).
Proof.
  split; intros H.
  - rewrite (getCardType_firstn4 (d ++ more)), (getCardType_firstn4 d).
    rewrite firstn_app.
    replace (4 - length d) with 0 by lia.
    cbn [firstn]. rewrite app_nil_r. reflexivity.
  - rewrite <- (isProbablyAmex_firstn 2 (d ++ more)) by lia.
    rewrite <- (isProbablyAmex_firstn 2 d) by lia.
    rewrite firstn_app.
    replace (2 - length d) with 0 by lia.
    cbn [firstn]. rewrite app_nil_r. reflexivity.
Qed.

Lemma classification_settles_witness :
  getCardType (str "6011" ++ str "000000000004") = getCardType (str "6011")
  /\ isProbablyAmex (str "37" ++ str "8282246310005")
     = isProbablyAmex (str "37").
Proof.
  split.
  - apply (proj1 (classification_settles (str "6011") (str "000000000004"))).
    vm_compute. lia.
  - apply (proj2 (classification_settles (str "37") (str "8282246310005"))).
    vm_compute. lia.
Defined.

(** ** The formatters: where the cursor lands *)

Lemma countDigits_firstn_mono (f : JSString) (q1 q2 : nat) :
  q1 <= q2 -> countDigits (firstn q1 f) <= countDigits (firstn q2 f).
Proof.
  intros H. replace (firstn q1 f) with (firstn q1 (firstn q2 f)).
  - apply countDigits_firstn_le.
  - rewrite firstn_firstn. f_equal. lia.
Qed.

Lemma testDigitAt_last (f : JSString) (x : ascii) :
  f <> [] -> testDigitAt f (length f - 1) = isDigit (List.last f x).
Proof.
  induction f as [|c f IH]; [congruence|]. intros _.
  destruct f as [|c' f]; [reflexivity|].
  specialize (IH ltac:(congruence)).
  replace (length (c :: c' :: f) - 1) with (S (length (c' :: f) - 1))
    by (cbn [length]; lia).
  change (List.last (c :: c' :: f) x) with (List.last (c' :: f) x).
  rewrite <- IH. reflexivity.
Qed.

(** The cursor the loop computes is 0 or stands right after a digit, as
    soon as the formatted value does not end with a separator. *)
Lemma remapCursor_after_digit (f : JSString) (n : nat) :
  isDigit (List.last f "0"%char) = true ->
  remapCursor f n = 0 \/ testDigitAt f (remapCursor f n - 1) = true.
Proof.
  intros L. destruct (remapCursor_spec f n) as (Hp & Hle & Hgt).
  destruct (Nat.le_gt_cases n (countDigits f)) as [H|H].
  - destruct (Hle H) as [E Hmin].
    destruct (remapCursor f n) as [|q]; [left; reflexivity|]. right.
    cbn [Nat.sub]. rewrite Nat.sub_0_r.
    rewrite countDigits_firstn_S in E.
    specialize (Hmin q (Nat.lt_succ_diag_r q)).
    destruct (testDigitAt f q); [reflexivity | lia].
  - rewrite (Hgt H). destruct f as [|c f]; [left; reflexivity|]. right.
    rewrite (testDigitAt_last _ "0"%char) by congruence. exact L.
Qed.

(** Evaluating the loop at the number of digits before a position that is
    0 or right after a digit gives that position back. *)
Lemma remapCursor_fixed (f : JSString) (p : nat) :
  p <= length f -> p = 0 \/ testDigitAt f (p - 1) = true ->
  remapCursor f (countDigits (firstn p f)) = p.
Proof.
  intros Hp Hd.
  destruct (remapCursor_spec f (countDigits (firstn p f))) as (Hq & Hle & _).
  destruct (Hle (countDigits_firstn_le f p)) as [E Hmin].
  set (q := remapCursor f (countDigits (firstn p f))) in *.
  destruct (Nat.lt_trichotomy q p) as [Hlt | [Heq | Hgt]].
  - exfalso. destruct Hd as [-> | Hd]; [lia|].
    destruct p as [|p']; [lia|].
    cbn [Nat.sub] in Hd. rewrite Nat.sub_0_r in Hd.
    rewrite countDigits_firstn_S, Hd in E.
    pose proof (countDigits_firstn_mono f q p'). lia.
  - exact Heq.
  - exfalso. exact (Hmin p Hgt eq_refl).
Qed.

Lemma remapCursor_mono (f : JSString) (n1 n2 : nat) :
  n1 <= n2 -> remapCursor f n1 <= remapCursor f n2.
Proof.
  intros H.
  destruct (remapCursor_spec f n1) as (Hp1 & Hle1 & Hgt1).
  destruct (remapCursor_spec f n2) as (Hp2 & Hle2 & Hgt2).
  destruct (Nat.le_gt_cases n2 (countDigits f)) as [H2|H2].
  - destruct (Hle2 H2) as [E2 _].
    destruct (Hle1 ltac:(lia)) as [E1 Hmin1].
    destruct (Nat.le_gt_cases (remapCursor f n1) (remapCursor f n2))
      as [?|Hgt]; [assumption|].
    exfalso.
    pose proof (countDigits_firstn_mono f (remapCursor f n2)
                  (remapCursor f n1) ltac:(lia)).
    specialize (Hmin1 _ Hgt). lia.
  - rewrite (Hgt2 H2). exact Hp1.
Qed.

Lemma last_spaced (P : nat -> bool) (i : nat) (d : JSString) :
  allDigits d = true -> isDigit (List.last (spaced P i d) "0"%char) = true.
Proof.
  revert i. induction d as [|c d IH]; intros i H; [reflexivity|].
  simpl in H. apply andb_prop in H as [Hc Hd].
  cbn [spaced]. specialize (IH (S i) Hd).
  destruct (spaced P (S i) d) as [|r rs] eqn:E.
  - destruct (P i); exact Hc.
  - destruct (P i); exact IH.
Qed.

Lemma last_expiryFormatted (t : JSString) :
  allDigits t = true -> length t <= 4 ->
  isDigit (List.last (expiryFormatted t) "0"%char) = true.
Proof.
  intros D L.
  destruct t as [|a [|b [|c [|d [|e t]]]]]; simpl in L; try lia;
    simpl in D; repeat (apply andb_prop in D as [?H D]);
    try reflexivity; assumption.
Qed.

Lemma formatCardNumber_last (raw : JSString) (c : nat) :
  isDigit (List.last (value (formatCardNumber (mkInput raw c))) "0"%char)
  = true.
Proof.
  destruct (formatCardNumber_spaced raw c) as (P & _ & E).
  rewrite E. apply last_spaced, cardDigits_allDigits.
Qed.

Lemma formatExpiry_last (raw : JSString) (c : nat) :
  isDigit (List.last (value (formatExpiry (mkInput raw c))) "0"%char) = true.
Proof.
  rewrite formatExpiry_value_eq. apply last_expiryFormatted.
  - apply allDigits_firstn, allDigits_removeNonDigits.
  - rewrite length_firstn. lia.
Qed.

(** X5. After [formatCardNumber] and after [formatExpiry] the cursor is
    inside the value, and it is at the start or right after a digit: never
    right after a separator. *)
Theorem cursor_after_digit (raw : JSString) (c : nat) :
  forall format, format = formatCardNumber \/ format = formatExpiry ->
    let out := format (mkInput raw c) in
    selectionStart out <= length (value out)
    /\ (selectionStart out = 0
        \/ testDigitAt (value out) (selectionStart out - 1) = true).
Proof.
  intros format [-> | ->]; cbv zeta.
  - rewrite formatCardNumber_cursor_eq.
    split; [apply remapCursor_spec|].
    apply remapCursor_after_digit, formatCardNumber_last.
  - rewrite formatExpiry_cursor_eq.
    split; [apply remapCursor_spec|].
    apply remapCursor_after_digit, formatExpiry_last.
Qed.

(** X6. In all three formatters the new cursor is monotone in the old one:
    a cursor further right in the raw value is not further left in the
    formatted value. *)
Theorem cursor_monotone (raw : JSString) (c1 c2 : nat) (H : c1 <= c2) :
  selectionStart (formatCvv (mkInput raw c1))
  <= selectionStart (formatCvv (mkInput raw c2))
  /\ selectionStart (formatExpiry (mkInput raw c1))
     <= selectionStart (formatExpiry (mkInput raw c2))
  /\ selectionStart (formatCardNumber (mkInput raw c1))
     <= selectionStart (formatCardNumber (mkInput raw c2)).
Proof.
  split; [|split].
  - unfold formatCvv. cbn [value selectionStart set_value].
    set (v := substring (removeNonDigits raw) 0 4).
    destruct (Nat.leb_spec c1 (length v)), (Nat.leb_spec c2 (length v));
      cbn [setSelectionRange selectionStart value set_value]; lia.
  - rewrite !formatExpiry_cursor_eq, !formatExpiry_value_eq.
    apply remapCursor_mono, countDigits_firstn_mono, H.
  - rewrite !formatCardNumber_cursor_eq, !formatCardNumber_value_eq.
    apply remapCursor_mono, countDigits_firstn_mono, H.
Qed.

Lemma cursor_monotone_witness :
  selectionStart (formatCardNumber (mkInput (str "123456789") 4))
  <= selectionStart (formatCardNumber (mkInput (str "123456789") 5)).
Proof.
  apply (proj2 (proj2 (cursor_monotone (str "123456789") 4 5 ltac:(lia)))).
Defined.

Lemma cursor_after_digit_witness :
  selectionStart (formatExpiry (mkInput (str "1/2/3") 4)) = 2
  /\ testDigitAt (value (formatExpiry (mkInput (str "1/2/3") 4))) 1 = true.
Proof.
  split; [reflexivity|].
  destruct (proj2 (cursor_after_digit (str "1/2/3") 4 formatExpiry
                     (or_intror eq_refl))) as [E|E];
    [discriminate E | exact E].
Defined.

(** ** The formatters: typing at the end of a formatted value *)

Lemma firstn_app_firstn (A : Type) (j k : nat) (a b : list A) :
  j <= k -> firstn j (firstn k a ++ b) = firstn j (a ++ b).
Proof.
  revert k a. induction j as [|j IH]; intros k a H; [reflexivity|].
  destruct k as [|k]; [lia|].
  destruct a as [|x a]; [reflexivity|].
  cbn [firstn app]. f_equal. apply IH. lia.
Qed.

Lemma removeNonDigits_app (s t : JSString) :
  removeNonDigits (s ++ t) = removeNonDigits s ++ removeNonDigits t.
Proof. apply List.filter_app. Qed.

Lemma formatCardNumber_digits (raw : JSString) (c : nat) :
  removeNonDigits (value (formatCardNumber (mkInput raw c))) = cardDigits raw.
Proof.
  destruct (formatCardNumber_spaced raw c) as (P & _ & E).
  rewrite E. apply removeNonDigits_spaced, cardDigits_allDigits.
Qed.

Lemma formatExpiry_digits (raw : JSString) (c : nat) :
  removeNonDigits (value (formatExpiry (mkInput raw c)))
  = firstn 4 (removeNonDigits raw).
Proof.
  rewrite formatExpiry_value_eq. apply removeNonDigits_expiryFormatted.
  - apply allDigits_firstn, allDigits_removeNonDigits.
  - rewrite length_firstn. lia.
Qed.

Lemma formatCvv_digits (raw : JSString) (c : nat) :
  removeNonDigits (value (formatCvv (mkInput raw c)))
  = firstn 4 (removeNonDigits raw).
Proof.
  rewrite formatCvv_value_eq. apply removeNonDigits_id.
  apply allDigits_firstn, allDigits_removeNonDigits.
Qed.

Lemma isProbablyAmex_kept (k : nat) (a b : JSString) :
  2 <= k -> isProbablyAmex (firstn k a ++ b) = isProbablyAmex (a ++ b).
Proof.
  intros H.
  rewrite <- (isProbablyAmex_firstn 2 (firstn k a ++ b)) by lia.
  rewrite <- (isProbablyAmex_firstn 2 (a ++ b)) by lia.
  rewrite firstn_app_firstn by assumption. reflexivity.
Qed.

Lemma cardDigits_append (x y : JSString) (c : nat) :
  isProbablyAmex
    (removeNonDigits (value (formatCardNumber (mkInput x c)) ++ y))
  = isProbablyAmex (removeNonDigits (x ++ y))
  /\ cardDigits (value (formatCardNumber (mkInput x c)) ++ y)
     = cardDigits (x ++ y).
Proof.
  assert (A : isProbablyAmex
                (removeNonDigits (value (formatCardNumber (mkInput x c)) ++ y))
              = isProbablyAmex (removeNonDigits (x ++ y))).
  { rewrite !removeNonDigits_app, formatCardNumber_digits. unfold cardDigits.
    destruct (isProbablyAmex (removeNonDigits x));
      apply isProbablyAmex_kept; lia. }
  split; [exact A|].
  unfold cardDigits. rewrite A, !removeNonDigits_app, formatCardNumber_digits.
  unfold cardDigits.
  destruct (isProbablyAmex (removeNonDigits x)) eqn:Ax.
  - (* with two digits in [x] the flag is the one of [x] *)
    assert (E : isProbablyAmex (removeNonDigits x ++ removeNonDigits y) = true).
    { apply isProbablyAmex_prefix in Ax as [L2 F2].
      apply isProbablyAmex_prefix. rewrite length_app. split; [lia|].
      rewrite firstn_app.
      replace (2 - length (removeNonDigits x)) with 0 by lia.
      cbn [firstn]. rewrite app_nil_r. exact F2. }
    rewrite E. apply firstn_app_firstn. lia.
  - destruct (isProbablyAmex (removeNonDigits x ++ removeNonDigits y));
      apply firstn_app_firstn; lia.
Qed.

(** X7. Typing after a formatted value is typing after the raw one: a
    formatter gives the same value on its own output followed by [y] as on
    the raw input followed by [y] (with [y] empty: the formatted value is a
    fixed point). *)
Theorem format_after_formatted (x y : JSString) (c c' c'' : nat) :
  value (formatCvv (mkInput (value (formatCvv (mkInput x c)) ++ y) c'))
  = value (formatCvv (mkInput (x ++ y) c''))
  /\ value (formatExpiry
              (mkInput (value (formatExpiry (mkInput x c)) ++ y) c'))
     = value (formatExpiry (mkInput (x ++ y) c''))
  /\ value (formatCardNumber
              (mkInput (value (formatCardNumber (mkInput x c)) ++ y) c'))
     = value (formatCardNumber (mkInput (x ++ y) c'')).
Proof.
  split; [|split].
  - rewrite !(formatCvv_value_eq (_ ++ _)).
    rewrite !removeNonDigits_app, formatCvv_digits.
    apply firstn_app_firstn. lia.
  - rewrite !(formatExpiry_value_eq (_ ++ _)).
    rewrite !removeNonDigits_app, formatExpiry_digits.
    f_equal. apply firstn_app_firstn. lia.
  - rewrite !(formatCardNumber_value_eq (_ ++ _)).
    destruct (cardDigits_append x y c) as [-> ->]. reflexivity.
Qed.

(** ** The formatters: fixed points, cursor included *)

Lemma input_eq (i j : HTMLInputElement) :
  value i = value j -> selectionStart i = selectionStart j -> i = j.
Proof. destruct i, j. simpl. intros -> ->. reflexivity. Qed.

Lemma formatCvv_eq (raw : JSString) (c : nat) :
  formatCvv (mkInput raw c)
  = mkInput (firstn 4 (removeNonDigits raw))
      (Nat.min c (length (firstn 4 (removeNonDigits raw)))).
Proof.
  unfold formatCvv. cbn [value selectionStart set_value].
  rewrite substring_0. set (v := firstn 4 (removeNonDigits raw)).
  destruct (Nat.leb_spec c (length v));
    unfold setSelectionRange; cbn [value set_value]; f_equal; lia.
Qed.

Lemma remapCursor_again (f : JSString) (n : nat) :
  isDigit (List.last f "0"%char) = true ->
  remapCursor f (countDigits (firstn (remapCursor f n) f)) = remapCursor f n.
Proof.
  intros L. apply remapCursor_fixed.
  - apply remapCursor_spec.
  - apply remapCursor_after_digit, L.
Qed.

(** X8. Each formatter maps the element it produced to itself: value and
    cursor are both unchanged by a second pass. *)
Theorem format_fixed_point (input : HTMLInputElement) :
  formatCvv (formatCvv input) = formatCvv input
  /\ formatExpiry (formatExpiry input) = formatExpiry input
  /\ formatCardNumber (formatCardNumber input) = formatCardNumber input.
Proof.
  destruct input as [raw c]. split; [|split].
  - rewrite (formatCvv_eq raw c), formatCvv_eq.
    rewrite removeNonDigits_id
      by apply allDigits_firstn, allDigits_removeNonDigits.
    rewrite firstn_twice. f_equal. lia.
  - set (o := formatExpiry (mkInput raw c)).
    assert (V : forall p, value (formatExpiry (mkInput (value o) p)) = value o).
    { intros p. subst o. rewrite (formatExpiry_value_eq (value _)).
      rewrite formatExpiry_digits, formatExpiry_value_eq, firstn_twice.
      reflexivity. }
    replace o with (mkInput (value o) (selectionStart o)) at 1
      by (destruct o; reflexivity).
    apply input_eq; [apply V|].
    rewrite formatExpiry_cursor_eq, V. subst o.
    rewrite (formatExpiry_cursor_eq raw c).
    apply remapCursor_again, formatExpiry_last.
  - set (o := formatCardNumber (mkInput raw c)).
    assert (V : forall p,
               value (formatCardNumber (mkInput (value o) p)) = value o).
    { intros p. subst o.
      destruct (cardDigits_append raw [] c) as [A D].
      rewrite !app_nil_r in A, D.
      rewrite (formatCardNumber_value_eq (value _)), A, D.
      symmetry. apply formatCardNumber_value_eq. }
    replace o with (mkInput (value o) (selectionStart o)) at 1
      by (destruct o; reflexivity).
    apply input_eq; [apply V|].
    rewrite formatCardNumber_cursor_eq, V. subst o.
    rewrite (formatCardNumber_cursor_eq raw c).
    apply remapCursor_again, formatCardNumber_last.
Qed.

(** ** The formatters: lengths *)

Lemma groupsOf4_len (d : JSString) :
  length d <= 16 -> length (groupsOf4 d) = length d + (length d - 1) / 4.
Proof.
  intros H.
  do 17 (destruct d as [|? d]; [reflexivity|]).
  simpl in H. lia.
Qed.

Lemma groups465_len (d : JSString) :
  length d <= 15 ->
  length (groups465 d)
  = length d + (if 4 <? length d then 1 else 0)
    + (if 10 <? length d then 1 else 0).
Proof.
  intros H.
  do 16 (destruct d as [|? d]; [reflexivity|]).
  simpl in H. lia.
Qed.

(** X9. The length of a formatted value: the digits kept (at most 16, 15
    for Amex, 4 for the expiry and the CVV) plus the separators, so a card
    number is at most 19 characters long (17 for Amex) and an expiry at
    most 7. *)
Theorem formatted_length (raw : JSString) (c : nat) :
  let amex := isProbablyAmex (removeNonDigits raw) in
  let k := length (cardDigits raw) in
  let n := Nat.min 4 (countDigits raw) in
  k = Nat.min (if amex then 15 else 16) (countDigits raw)
  /\ length (value (formatCardNumber (mkInput raw c)))
     = k + (if amex
            then (if 4 <? k then 1 else 0) + (if 10 <? k then 1 else 0)
            else (k - 1) / 4)
  /\ length (value (formatCardNumber (mkInput raw c)))
     <= (if amex then 17 else 19)
  /\ length (value (formatExpiry (mkInput raw c)))
     = (if n <=? 2 then n else n + 3)
  /\ length (value (formatCvv (mkInput raw c))) = n.
Proof.
  cbv zeta.
  assert (K : length (cardDigits raw)
              = Nat.min (if isProbablyAmex (removeNonDigits raw)
                         then 15 else 16) (countDigits raw)).
  { unfold cardDigits, countDigits. apply length_firstn. }
  assert (L : length (value (formatCardNumber (mkInput raw c)))
              = length (cardDigits raw)
                + (if isProbablyAmex (removeNonDigits raw)
                   then (if 4 <? length (cardDigits raw) then 1 else 0)
                        + (if 10 <? length (cardDigits raw) then 1 else 0)
                   else (length (cardDigits raw) - 1) / 4)).
  { rewrite formatCardNumber_value_eq.
    pose proof (cardDigits_length raw) as B.
    destruct (isProbablyAmex (removeNonDigits raw)).
    - rewrite groups465_len by exact B. lia.
    - apply groupsOf4_len, B. }
  split; [exact K|]. split; [exact L|]. split; [|split].
  - rewrite L. pose proof (cardDigits_length raw) as B.
    destruct (isProbablyAmex (removeNonDigits raw)); cbv iota in B.
    + destruct (4 <? length (cardDigits raw)),
               (10 <? length (cardDigits raw)); lia.
    + assert ((length (cardDigits raw) - 1) / 4 < 4); [|lia].
      apply Nat.Div0.div_lt_upper_bound. lia.
  - rewrite formatExpiry_value_eq.
    assert (N : length (firstn 4 (removeNonDigits raw))
                = Nat.min 4 (countDigits raw)) by apply length_firstn.
    pose proof (Nat.le_min_l 4 (countDigits raw)) as M.
    rewrite <- N in *.
    destruct (firstn 4 (removeNonDigits raw)) as [|a [|b [|x [|y [|z t]]]]];
      try reflexivity.
    cbn [length] in M. lia.
  - rewrite formatCvv_value_eq. apply length_firstn.
Qed.

(** ** EventEmitterLite: subscribing and unsubscribing *)

Lemma on_events (event : JSString) (listener : Listener)
  (this : EventEmitterLite) :
  events (on event listener this)
  = <[event := default [] (events this !! event) ++ [listener]]> (events this)
  /\ logErrors (on event listener this) = logErrors this.
Proof.
  unfold on.
  destruct (events this !! event) as [ls|] eqn:L; cbn [events logErrors].
  - rewrite L. split; reflexivity.
  - rewrite lookup_insert_eq. cbn [from_option id].
    rewrite insert_insert_eq. split; reflexivity.
Qed.

Lemma findIndex_splice (A : Type) (p : A -> bool) (l : list A) (idx : nat) :
  findIndex p l = Some idx -> splice1 idx l = removeFirst p l.
Proof.
  revert idx. induction l as [|x l IH]; intros idx H; [discriminate|].
  cbn [findIndex removeFirst] in *. destruct (p x).
  - injection H as <-. reflexivity.
  - destruct (findIndex p l) as [k|]; [|discriminate].
    injection H as <-. unfold splice1 in *. cbn [firstn skipn app].
    f_equal. apply IH. reflexivity.
Qed.

Lemma findIndex_none (A : Type) (p : A -> bool) (l : list A) :
  findIndex p l = None <-> forallb (fun x => negb (p x)) l = true.
Proof.
  induction l as [|x l IH]; [split; reflexivity|].
  cbn [findIndex forallb]. destruct (p x); cbn [negb andb].
  - split; discriminate.
  - rewrite <- IH. destruct (findIndex p l); cbn [option_map];
      split; congruence.
Qed.

Lemma removeFirst_none (A : Type) (p : A -> bool) (l : list A) :
  forallb (fun x => negb (p x)) l = true -> removeFirst p l = l.
Proof.
  induction l as [|x l IH]; [reflexivity|].
  cbn [forallb removeFirst]. intros H. apply andb_prop in H as [Hx Hl].
  destruct (p x); [discriminate|]. f_equal. apply IH, Hl.
Qed.

Lemma removeFirst_snoc (A : Type) (p : A -> bool) (l : list A) (x : A) :
  forallb (fun y => negb (p y)) l = true -> p x = true ->
  removeFirst p (l ++ [x]) = l.
Proof.
  intros Hl Hx. induction l as [|y l IH].
  - cbn [app removeFirst]. rewrite Hx. reflexivity.
  - cbn [forallb] in Hl. apply andb_prop in Hl as [Hy Hl].
    cbn [app removeFirst]. destruct (p y); [discriminate|].
    f_equal. apply IH, Hl.
Qed.

Section EmitterProperties.

Variable original : Listener -> option Listener.

Lemma removeListener_lookup (event : JSString) (listener : Listener)
  (this : EventEmitterLite) :
  events (removeListener original event listener this) !! event
  = match removeFirst (sameListener original listener)
            (default [] (events this !! event)) with
    | [] => match events this !! event with
            | Some [] => Some []
            | _ => None
            end
    | l => Some l
    end.
Proof.
  unfold removeListener. destruct (events this !! event) as [ls|] eqn:L.
  - change (default [] (Some ls)) with ls.
    destruct (findIndex (sameListener original listener) ls) as [idx|] eqn:F.
    + rewrite (findIndex_splice _ _ _ _ F).
      destruct (removeFirst (sameListener original listener) ls)
        as [|x r] eqn:R.
      * cbn [length Nat.eqb events]. rewrite lookup_delete_eq.
        destruct ls as [|y ls]; [discriminate F | reflexivity].
      * cbn [length Nat.eqb events]. apply lookup_insert_eq.
    + rewrite removeFirst_none by (apply findIndex_none, F).
      rewrite L. destruct ls; reflexivity.
  - rewrite L. reflexivity.
Qed.

Lemma removeListener_other (event event' : JSString) (listener : Listener)
  (this : EventEmitterLite) :
  event <> event' ->
  events (removeListener original event listener this) !! event'
  = events this !! event'.
Proof.
  intros Hne. unfold removeListener.
  destruct (events this !! event) as [ls|]; [|reflexivity].
  destruct (findIndex (sameListener original listener) ls) as [idx|];
    [|reflexivity].
  destruct (length (splice1 idx ls) =? 0); cbn [events].
  - apply lookup_delete_ne, Hne.
  - apply lookup_insert_ne, Hne.
Qed.

Lemma removeListener_logErrors (event : JSString) (listener : Listener)
  (this : EventEmitterLite) :
  logErrors (removeListener original event listener this) = logErrors this.
Proof.
  unfold removeListener.
  destruct (events this !! event) as [ls|]; [|reflexivity].
  destruct (findIndex (sameListener original listener) ls) as [idx|];
    [|reflexivity].
  destruct (length (splice1 idx ls) =? 0); reflexivity.
Qed.

Lemma emitter_eq (a b : EventEmitterLite) :
  events a = events b -> logErrors a = logErrors b -> a = b.
Proof. destruct a, b. simpl. intros -> ->. reflexivity. Qed.

(** X10. [removeListener] takes the first subscription of the event that
    is the listener or a wrapper of it out of the queue and leaves the
    rest in order; the other events and [logErrors] are untouched; an
    event without subscriptions, or a listener that is not subscribed,
    leaves the emitter as it is. *)
Theorem removeListener_effect (event : JSString) (listener : Listener)
  (this : EventEmitterLite) :
  let queue := default [] (events this !! event) in
  let this' := removeListener original event listener this in
  default [] (events this' !! event)
  = removeFirst (sameListener original listener) queue
  /\ (forall event', event <> event' ->
        events this' !! event' = events this !! event')
  /\ logErrors this' = logErrors this
  /\ (forallb (fun l => negb (sameListener original listener l)) queue = true ->
      this' = this).
Proof.
  cbv zeta. split; [|split; [|split]].
  - rewrite removeListener_lookup.
    destruct (removeFirst (sameListener original listener)
                (default [] (events this !! event))) as [|x r];
      [|reflexivity].
    destruct (events this !! event) as [[|y ls]|]; reflexivity.
  - intros event' Hne. apply removeListener_other, Hne.
  - apply removeListener_logErrors.
  - intros H. unfold removeListener.
    destruct (events this !! event) as [ls|]; [|reflexivity].
    cbn [from_option id] in H. apply findIndex_none in H. rewrite H.
    reflexivity.
Qed.

Lemma noEmptyQueue_new : noEmptyQueue {| events := ∅; logErrors := true |}.
Proof. intros e ls. cbn [events]. rewrite lookup_empty. discriminate. Qed.

Lemma noEmptyQueue_on (event : JSString) (listener : Listener)
  (this : EventEmitterLite) :
  noEmptyQueue this -> noEmptyQueue (on event listener this).
Proof.
  intros H e ls. destruct (on_events event listener this) as [-> _].
  destruct (decide (event = e)) as [<-|Hne].
  - rewrite lookup_insert_eq. intros [= <-].
    destruct (default [] (events this !! event)); discriminate.
  - rewrite lookup_insert_ne by exact Hne. apply H.
Qed.

Lemma noEmptyQueue_removeListener (event : JSString) (listener : Listener)
  (this : EventEmitterLite) :
  noEmptyQueue this ->
  noEmptyQueue (removeListener original event listener this).
Proof.
  intros H e ls. destruct (decide (event = e)) as [<-|Hne].
  - rewrite removeListener_lookup.
    destruct (removeFirst (sameListener original listener)
                (default [] (events this !! event))) as [|x r].
    + destruct (events this !! event) as [[|y l]|] eqn:L; try discriminate.
      exfalso. exact (H _ _ L eq_refl).
    + intros [= <-]. discriminate.
  - rewrite removeListener_other by exact Hne. apply H.
Qed.

(** X11. No event is ever mapped to an empty queue: that holds of a new
    emitter and both [on] and [removeListener] keep it (the last
    subscription removed, the event is deleted), so an event has a queue
    exactly when it has a listener. *)
Theorem noEmptyQueue_kept (event : JSString) (listener : Listener)
  (this : EventEmitterLite) (H : noEmptyQueue this) :
  noEmptyQueue {| events := ∅; logErrors := true |}
  /\ noEmptyQueue (on event listener this)
  /\ noEmptyQueue (removeListener original event listener this)
  /\ (events this !! event = None
      <-> default [] (events this !! event) = []).
Proof.
  split; [apply noEmptyQueue_new|].
  split; [apply noEmptyQueue_on, H|].
  split; [apply noEmptyQueue_removeListener, H|].
  destruct (events this !! event) as [ls|] eqn:L; cbn [from_option id].
  - split; [discriminate|]. intros ->. exfalso. exact (H _ _ L eq_refl).
  - split; reflexivity.
Qed.

(** X12. Unsubscribing undoes subscribing: when no subscription of the
    event is already the listener [l] (or a wrapper of it), subscribing
    [r], which is [l] or a wrapper of [l], and then removing [l] gives the
    emitter back, the event itself included when it had no listener. *)
Theorem on_removeListener (event : JSString) (l r : Listener)
  (this : EventEmitterLite)
  (H : noEmptyQueue this)
  (Hfresh : forallb (fun x => negb (sameListener original l x))
              (default [] (events this !! event)) = true)
  (Hr : r = l \/ original r = Some l) :
  removeListener original event l (on event r this) = this.
Proof.
  assert (S : sameListener original l r = true).
  { unfold sameListener. destruct Hr as [-> | ->].
    - rewrite Nat.eqb_refl. reflexivity.
    - rewrite Nat.eqb_refl. apply orb_true_r. }
  apply emitter_eq.
  2:{ rewrite removeListener_logErrors. apply on_events. }
  apply map_eq. intros e. destruct (decide (event = e)) as [<-|Hne].
  - rewrite removeListener_lookup.
    destruct (on_events event r this) as [-> _].
    rewrite lookup_insert_eq. cbn [from_option id].
    rewrite (removeFirst_snoc _ _ _ _ Hfresh S).
    destruct (events this !! event) as [ls|] eqn:L; cbn [from_option id].
    + destruct ls as [|x ls]; [exfalso; exact (H _ _ L eq_refl)|].
      destruct (ls ++ [r]); reflexivity.
    + reflexivity.
  - rewrite removeListener_other by exact Hne.
    destruct (on_events event r this) as [-> _].
    apply lookup_insert_ne, Hne.
Qed.

End EmitterProperties.

Lemma noEmptyQueue_kept_witness :
  noEmptyQueue
    (removeListener (fun _ => None) (str "allValid") 1 sampleEmitter)
  /\ events (removeListener (fun _ => None) (str "allValid") 1 sampleEmitter)
       !! str "allValid" = None.
Proof.
  assert (S : noEmptyQueue sampleEmitter).
  { unfold sampleEmitter. repeat apply noEmptyQueue_on.
    apply noEmptyQueue_new. }
  split.
  - apply (proj1 (proj2 (proj2
             (noEmptyQueue_kept (fun _ => None) (str "allValid") 1
                sampleEmitter S)))).
  - vm_compute. reflexivity.
Defined.

Lemma on_removeListener_witness :
  removeListener (fun l => if l =? 9 then Some 2 else None)
    (str "cvvStatusChange") 2
    (on (str "cvvStatusChange") 9 sampleEmitter)
  = sampleEmitter.
Proof.
  apply on_removeListener.
  - unfold sampleEmitter. repeat apply noEmptyQueue_on.
    apply noEmptyQueue_new.
  - vm_compute. reflexivity.
  - right. reflexivity.
Defined.

(** ** Subscriptions and emission *)

Lemma removeListener_effect_witness :
  removeListener (fun _ => None) (str "cardStatusChange") 7 sampleEmitter
  = sampleEmitter.
Proof.
  apply (proj2 (proj2 (proj2
           (removeListener_effect (fun _ => None) (str "cardStatusChange") 7
              sampleEmitter)))).
  vm_compute. reflexivity.
Defined.

Lemma removeListener_queue (original : Listener -> option Listener)
  (event : JSString) (listener : Listener) (this : EventEmitterLite) :
  default [] (events (removeListener original event listener this) !! event)
  = removeFirst (sameListener original listener)
      (default [] (events this !! event)).
Proof.
  rewrite removeListener_lookup.
  destruct (removeFirst (sameListener original listener)
              (default [] (events this !! event))) as [|x r];
    [|reflexivity].
  destruct (events this !! event) as [[|y ls]|]; reflexivity.
Qed.

Section EmissionProperties.

Context {Host Exn : Type}.
Variable call :
  Listener -> list Value -> World Host Exn -> World Host Exn * Completion Exn.
Variable original : Listener -> option Listener.

(** X13. Subscriptions decide who is called: after [on event l] an
    emission of the event applies the listeners subscribed before, in
    order, and then [l]; after [removeListener event l] it applies them
    without the first one that is [l] (or a wrapper of [l]); an emission
    of an event nobody subscribed to applies no listener and leaves the
    world as it is. *)
Theorem emit_follows_subscriptions (event : JSString) (args : list Value)
  (l : Listener) (s : Sys Host Exn) :
  let queue := default [] (events (eventEmitter (world s)) !! event) in
  (exists s',
     EventEmitterLite_emit call event args (change_emitter (on event l) s)
     = (s', Returned tt)
     /\ applied s'
        = applied s ++ map (fun x => (x, args)) queue ++ [(l, args)])
  /\ (exists s',
        EventEmitterLite_emit call event args
          (change_emitter (removeListener original event l) s)
        = (s', Returned tt)
        /\ applied s'
           = applied s
             ++ map (fun x => (x, args))
                  (removeFirst (sameListener original l) queue))
  /\ (events (eventEmitter (world s)) !! event = None ->
      EventEmitterLite_emit call event args s = (s, Returned tt)).
Proof.
  cbv zeta. split; [|split].
  - destruct (EventEmitterLite_emit_returns call event args
                (change_emitter (on event l) s)) as (s' & E & _ & A).
    exists s'. split; [exact E|]. rewrite A.
    cbn [change_emitter applied world set_eventEmitter eventEmitter].
    destruct (on_events event l (eventEmitter (world s))) as [-> _].
    rewrite lookup_insert_eq. cbn [from_option id].
    rewrite map_app. reflexivity.
  - destruct (EventEmitterLite_emit_returns call event args
                (change_emitter (removeListener original event l) s))
      as (s' & E & _ & A).
    exists s'. split; [exact E|]. rewrite A.
    cbn [change_emitter applied world set_eventEmitter eventEmitter].
    rewrite removeListener_queue. reflexivity.
  - intros N. unfold EventEmitterLite_emit, bind, read. rewrite N.
    reflexivity.
Qed.

End EmissionProperties.

Lemma emit_follows_subscriptions_witness :
  exists s',
    EventEmitterLite_emit sampleCall (str "cvvStatusChange") []
      (change_emitter
         (removeListener (fun _ => None) (str "cvvStatusChange") 0)
         (sampleSys [] [] []))
    = (s', Returned tt)
    /\ applied s' = [(1, [])].
Proof.
  destruct (proj1 (proj2
              (emit_follows_subscriptions sampleCall (fun _ => None)
                 (str "cvvStatusChange") [] 0 (sampleSys [] [] []))))
    as (s' & E & A).
  exists s'. split; [exact E|]. rewrite A. vm_compute. reflexivity.
Defined.

(** ** Sessions: the all-valid flag over any sequence of input events *)

Lemma last_cons (b a : bool) (n : list bool) :
  List.last (b :: n) a = List.last n b.
Proof.
  revert b a. induction n as [|c n IH]; intros b a; [reflexivity|].
  change (List.last (b :: c :: n) a) with (List.last (c :: n) a).
  rewrite (IH c a), (IH c b). reflexivity.
Qed.

Lemma alternates_app (a : bool) (n1 n2 : list bool) :
  alternates a (n1 ++ n2)
  = alternates a n1 && alternates (List.last n1 a) n2.
Proof.
  revert a. induction n1 as [|b n1 IH]; intros a; [reflexivity|].
  cbn [app alternates]. rewrite IH, andb_assoc, last_cons. reflexivity.
Qed.

Lemma last_app_default (a : bool) (n1 n2 : list bool) :
  List.last (n1 ++ n2) a = List.last n2 (List.last n1 a).
Proof.
  revert a. induction n1 as [|b n1 IH]; intros a; [reflexivity|].
  cbn [app]. rewrite !last_cons. apply IH.
Qed.

Lemma allValidTracked_refl (b : bool) (l : list (JSString * list Value)) :
  allValidTracked b b l l.
Proof. exists []. cbn [map]. rewrite app_nil_r. repeat split. Qed.

Lemma allValidTracked_trans (a b c : bool)
  (l1 l2 l3 : list (JSString * list Value)) :
  allValidTracked a b l1 l2 -> allValidTracked b c l2 l3 ->
  allValidTracked a c l1 l3.
Proof.
  intros (n1 & E1 & A1 & L1) (n2 & E2 & A2 & L2).
  exists (n1 ++ n2). split; [|split].
  - rewrite E2, E1, map_app, app_assoc. reflexivity.
  - rewrite alternates_app, A1, L1, A2. reflexivity.
  - rewrite last_app_default, L1. exact L2.
Qed.

Section SessionProperties.

Context {Host Exn : Type}.
Variable call :
  Listener -> list Value -> World Host Exn -> World Host Exn * Completion Exn.

Lemma update_tracked (this : CreditCardInput) (s : Sys Host Exn)
  (update : CreditCardInput -> M Host Exn CreditCardInput) :
  In update
    [_updateCardStatus call; _updateExpiryStatus call; _updateCvvStatus call] ->
  exists s' this',
    update this s = (s', Returned this')
    /\ _allValid this' = statusesAllValid this'
    /\ allValidTracked (_allValid this) (_allValid this')
         (emitted s) (emitted s').
Proof.
  intros Hin.
  destruct (update_returns call this s update Hin)
    as (s' & this' & field & E & I & Em & F).
  exists s', this'. split; [exact E|]. split; [exact I|].
  exists (if Bool.eqb (_allValid this) (_allValid this') then []
          else [_allValid this']).
  rewrite Em, notifications_update by exact F.
  destruct (Bool.eqb (_allValid this) (_allValid this')) eqn:B.
  - repeat split. cbn [List.last]. apply eqb_prop, B.
  - cbn [map alternates List.last]. rewrite B. repeat split.
Qed.

Lemma dispatch_tracked (this : CreditCardInput) (e : InputEvent)
  (s : Sys Host Exn) :
  exists s' this',
    dispatch call this e s = (s', Returned this')
    /\ _allValid this' = statusesAllValid this'
    /\ allValidTracked (_allValid this) (_allValid this')
         (emitted s) (emitted s').
Proof.
  destruct e as [typed | typed | typed];
    unfold dispatch, onCardInput, onExpiryInput, onCvvInput;
    unfold bind at 1, update_world at 1; unfold bind at 1, update_world at 1.
  - unfold bind at 1.
    match goal with
    | |- context [_updateCardStatus call this ?s0] =>
        destruct (update_tracked this s0 _ (or_introl eq_refl))
          as (s1 & this1 & E1 & _ & T1)
    end.
    rewrite E1.
    destruct (update_tracked this1 s1 _
                (or_intror (or_intror (or_introl eq_refl))))
      as (s2 & this2 & E2 & I2 & T2).
    exists s2, this2. split; [exact E2|]. split; [exact I2|].
    exact (allValidTracked_trans _ _ _ _ _ _ T1 T2).
  - match goal with
    | |- context [_updateExpiryStatus call this ?s0] =>
        destruct (update_tracked this s0 _ (or_intror (or_introl eq_refl)))
          as (s1 & this1 & E1 & I1 & T1)
    end.
    exists s1, this1. split; [exact E1|]. split; [exact I1 | exact T1].
  - match goal with
    | |- context [_updateCvvStatus call this ?s0] =>
        destruct (update_tracked this s0 _
                    (or_intror (or_intror (or_introl eq_refl))))
          as (s1 & this1 & E1 & I1 & T1)
    end.
    exists s1, this1. split; [exact E1|]. split; [exact I1 | exact T1].
Qed.

Lemma run_tracked (es : list InputEvent) :
  forall (this : CreditCardInput) (s : Sys Host Exn),
    _allValid this = statusesAllValid this ->
    exists s' this',
      run call es this s = (s', Returned this')
      /\ _allValid this' = statusesAllValid this'
      /\ allValidTracked (_allValid this) (_allValid this')
           (emitted s) (emitted s').
Proof.
  induction es as [|e es IH]; intros this s I.
  - exists s, this. split; [reflexivity|]. split; [exact I|].
    apply allValidTracked_refl.
  - cbn [run]. unfold bind at 1.
    destruct (dispatch_tracked this e s) as (s1 & this1 & E1 & I1 & T1).
    rewrite E1.
    destruct (IH this1 s1 I1) as (s2 & this2 & E2 & I2 & T2).
    exists s2, this2. split; [exact E2|]. split; [exact I2|].
    exact (allValidTracked_trans _ _ _ _ _ _ T1 T2).
Qed.

Lemma init_tracked (this : CreditCardInput) (s : Sys Host Exn) :
  exists s' this',
    init call this s = (s', Returned this')
    /\ _allValid this' = statusesAllValid this'
    /\ allValidTracked (_allValid this) (_allValid this')
         (emitted s) (emitted s').
Proof.
  destruct (update_tracked this s _ (or_introl eq_refl))
    as (s1 & this1 & E1 & _ & T1).
  destruct (update_tracked this1 s1 _ (or_intror (or_introl eq_refl)))
    as (s2 & this2 & E2 & _ & T2).
  destruct (update_tracked this2 s2 _
              (or_intror (or_intror (or_introl eq_refl))))
    as (s3 & this3 & E3 & I3 & T3).
  destruct (emit_returns call this3 (str "init") [] s3) as (s4 & E4 & Em4 & _).
  exists s4, this3. split; [|split; [exact I3|]].
  - unfold init, bind. rewrite E1, E2, E3, E4. reflexivity.
  - apply (allValidTracked_trans _ _ _ _ _ _ T1).
    apply (allValidTracked_trans _ _ _ _ _ _ T2).
    apply (allValidTracked_trans _ _ _ _ _ _ T3).
    exists []. rewrite Em4, notifications_app. cbn [map].
    repeat split.
Qed.

(** X14. Over a whole session, [init] followed by any sequence of input
    events on the three fields, whatever the listeners do: the session
    returns, the flag ends equal to the conjunction of the three statuses,
    and the all-valid notifications emitted carry booleans that alternate
    and end on the final flag; for a new engine the first one, if any,
    carries [true]. *)
Theorem session_allValid (this : CreditCardInput) (es : list InputEvent)
  (s : Sys Host Exn) :
  exists s' this',
    session call this es s = (s', Returned this')
    /\ _allValid this' = statusesAllValid this'
    /\ allValidTracked (_allValid this) (_allValid this')
         (emitted s) (emitted s').
Proof.
  unfold session, bind.
  destruct (init_tracked this s) as (s1 & this1 & E1 & I1 & T1).
  rewrite E1.
  destruct (run_tracked es this1 s1 I1) as (s2 & this2 & E2 & I2 & T2).
  exists s2, this2. split; [exact E2|]. split; [exact I2|].
  exact (allValidTracked_trans _ _ _ _ _ _ T1 T2).
Qed.

End SessionProperties.

(** A session on the sample host: the fields are filled one after the
    other, then a digit of the card number is changed. *)
Example session_sample :
  let r := session sampleCall sampleEngine
             [CardInput (mkInput (str "4111111111111111") 16);
              ExpiryInput (mkInput (str "0634") 4);
              CvvInput (mkInput (str "123") 3);
              CardInput (mkInput (str "4111 1111 1111 1112") 19);
              CardInput (mkInput (str "4111 1111 1111 1111") 19)]
             (sampleSys [] [] []) in
  notifications (str "allValid") (emitted (fst r))
  = [[VAllValid {| isAllValid := true |}];
     [VAllValid {| isAllValid := false |}];
     [VAllValid {| isAllValid := true |}]].
Proof. vm_compute. reflexivity. Qed.

(** ** From the formatter to the evaluation *)

Ltac settle :=
  repeat split; intros; try discriminate; try reflexivity; try lia;
  try tauto; try assumption.

Lemma cardEvent_fields (this : CreditCardInput) (v : JSString) :
  let digits := removeNonDigits v in
  let maxDigits := if isProbablyAmex digits then 15 else 16 in
  card_isAmex (cardEvent this v) = isProbablyAmex digits
  /\ card_digits (cardEvent this v) = digits
  /\ card_type (cardEvent this v) = _getCardType this digits
  /\ card_status (cardEvent this v)
     = if maxDigits <=? length digits
       then (if luhnValidate digits then valid else invalid)
       else neutral.
Proof.
  cbv zeta. unfold cardEvent.
  destruct ((if isProbablyAmex (removeNonDigits v) then 15 else 16)
            <=? length (removeNonDigits v));
    repeat split; reflexivity.
Qed.

Lemma luhnValidate_digits (d : JSString) :
  allDigits d = true -> 2 <= length d ->
  luhnValidate d = (luhnChecksum_spec d =? 0)%Z.
Proof.
  intros D L. unfold luhnValidate. rewrite removeNonDigits_id by exact D.
  destruct (Nat.ltb_spec (length d) 2); [lia|].
  rewrite luhnChecksum_correct by exact D. reflexivity.
Qed.

Lemma isProbablyAmex_cardDigits (raw : JSString) :
  isProbablyAmex (cardDigits raw) = isProbablyAmex (removeNonDigits raw).
Proof.
  unfold cardDigits. destruct (isProbablyAmex (removeNonDigits raw)) eqn:A;
    rewrite isProbablyAmex_firstn by lia; exact A.
Qed.

(** The card status, once the default formatter has run. *)
Lemma cardEvent_formatted (this : CreditCardInput) (raw : JSString) (c : nat) :
  let ev := cardEvent this (value (formatCardNumber (mkInput raw c))) in
  let amex := isProbablyAmex (removeNonDigits raw) in
  let kept := cardDigits raw in
  let maxDigits := if amex then 15 else 16 in
  card_isAmex ev = amex
  /\ card_digits ev = kept
  /\ (card_status ev = neutral <-> length kept < maxDigits)
  /\ (card_status ev = valid
      <-> length kept = maxDigits /\ luhnChecksum_spec kept = 0%Z).
Proof.
  cbv zeta.
  destruct (cardEvent_fields this (value (formatCardNumber (mkInput raw c))))
    as (A & D & _ & S).
  rewrite formatCardNumber_digits in A, D, S.
  rewrite isProbablyAmex_cardDigits in A, S.
  split; [exact A|]. split; [exact D|]. rewrite S.
  pose proof (cardDigits_length raw) as B.
  pose proof (cardDigits_allDigits raw) as AD.
  set (m := if isProbablyAmex (removeNonDigits raw) then 15 else 16) in *.
  assert (M : 15 <= m) by (subst m; destruct (isProbablyAmex _); lia).
  destruct (Nat.leb_spec m (length (cardDigits raw))) as [G|G].
  - rewrite luhnValidate_digits by (assumption || lia).
    destruct (Z.eqb_spec (luhnChecksum_spec (cardDigits raw)) 0); settle.
  - settle.
Qed.

Lemma cvvEvent_status (this : CreditCardInput) (v : JSString) :
  let n := countDigits v in
  (cvv_status (cvvEvent this v) = neutral <-> n = 0)
  /\ (cvv_status (cvvEvent this v) = valid
      <-> n = if _isAmex this then 4 else 3).
Proof.
  cbv zeta. unfold cvvEvent, countDigits. cbn [cvv_status].
  set (n := length (removeNonDigits v)).
  destruct (Nat.ltb_spec 0 n) as [P|P].
  - destruct (Nat.eqb_spec n (if _isAmex this then 4 else 3)) as [E|E];
      settle.
  - destruct (_isAmex this); settle.
Qed.

Section HandlerProperties.

Context {Host Exn : Type}.
Variable call :
  Listener -> list Value -> World Host Exn -> World Host Exn * Completion Exn.

(** X15. The handler of the card field, with the default formatter: the
    card is evaluated on the digits the formatter kept (neutral below 15
    digits for Amex and 16 otherwise, valid exactly when that many digits
    pass the Luhn sum), and the CVV is evaluated again after it, for the
    Amex flag of the number just typed: the CVV is valid exactly when it
    has 4 digits for an Amex number and 3 otherwise. *)
Theorem onCardInput_evaluates (this : CreditCardInput) (s : Sys Host Exn)
  (Hf : _formatCardNumber this = formatCardNumber) :
  let raw := value (cardInput (world s)) in
  let amex := isProbablyAmex (removeNonDigits raw) in
  let kept := cardDigits raw in
  let maxDigits := if amex then 15 else 16 in
  exists s1 this1 s' this',
    _updateCardStatus call this (change_cardInput formatCardNumber s)
    = (s1, Returned this1)
    /\ onCardInput call this s = (s', Returned this')
    /\ _isAmex this' = amex
    /\ (_cardStatus this' = neutral <-> length kept < maxDigits)
    /\ (_cardStatus this' = valid
        <-> length kept = maxDigits /\ luhnChecksum_spec kept = 0%Z)
    /\ let n := countDigits (value (cvvInput (world s1))) in
       (_cvvStatus this' = neutral <-> n = 0)
       /\ (_cvvStatus this' = valid <-> n = if amex then 4 else 3).
Proof.
  cbv zeta.
  destruct (_updateCardStatus_returns call this
              (change_cardInput formatCardNumber s)) as (s1 & E1 & _).
  cbv zeta in E1.
  cbn [change_cardInput world set_cardInput cardInput] in E1.
  set (v0 := value (formatCardNumber (cardInput (world s)))) in *.
  destruct (_updateCvvStatus_returns call (afterCard this v0) s1)
    as (s2 & E2 & _).
  cbv zeta in E2.
  set (v1 := value (cvvInput (world s1))) in *.
  exists s1, (afterCard this v0), s2, (afterCvv (afterCard this v0) v1).
  split; [exact E1|].
  split.
  { unfold onCardInput, bind, update_world. rewrite Hf.
    fold (change_cardInput formatCardNumber s). rewrite E1. exact E2. }
  assert (C : cardInput (world s)
              = mkInput (value (cardInput (world s)))
                  (selectionStart (cardInput (world s))))
    by (destruct (cardInput (world s)); reflexivity).
  destruct (cardEvent_formatted this (value (cardInput (world s)))
              (selectionStart (cardInput (world s)))) as (A & _ & N & V).
  rewrite <- C in A, N, V. fold v0 in A, N, V.
  assert (F1 : _isAmex (afterCard this v0) = card_isAmex (cardEvent this v0)
               /\ _cardStatus (afterCard this v0)
                  = card_status (cardEvent this v0)).
  { unfold afterCard.
    destruct (checked_statuses
                (set_card this (card_type (cardEvent this v0))
                   (card_isAmex (cardEvent this v0))
                   (card_status (cardEvent this v0))))
      as (-> & _ & _ & _ & -> & _).
    split; reflexivity. }
  destruct F1 as [FA FS].
  assert (F2 : _isAmex (afterCvv (afterCard this v0) v1)
               = _isAmex (afterCard this v0)
               /\ _cardStatus (afterCvv (afterCard this v0) v1)
                  = _cardStatus (afterCard this v0)
               /\ _cvvStatus (afterCvv (afterCard this v0) v1)
                  = cvv_status (cvvEvent (afterCard this v0) v1)).
  { unfold afterCvv.
    destruct (checked_statuses
                (set_cvvStatus (afterCard this v0)
                   (cvv_status (cvvEvent (afterCard this v0) v1))))
      as (-> & _ & -> & _ & -> & _).
    repeat split. }
  destruct F2 as (GA & GS & GC).
  rewrite GA, GS, GC, FA, FS.
  split; [exact A|]. split; [exact N|]. split; [exact V|].
  destruct (cvvEvent_status (afterCard this v0) v1) as [Q1 Q2].
  rewrite FA, A in Q2. split; [exact Q1 | exact Q2].
Qed.

End HandlerProperties.

Lemma onCardInput_evaluates_witness :
  exists s' this',
    onCardInput sampleCall sampleEngine
      (sampleSys (str "3782 8224 6310 005") [] (str "1234"))
    = (s', Returned this')
    /\ _isAmex this' = true
    /\ _cardStatus this' = valid.
Proof.
  destruct (onCardInput_evaluates sampleCall sampleEngine
              (sampleSys (str "3782 8224 6310 005") [] (str "1234")) eq_refl)
    as (s1 & this1 & s' & this' & _ & E & A & _ & V & _).
  exists s', this'. split; [exact E|]. split; [exact A|].
  apply V. split; reflexivity.
Defined.

(** ** Luhn: strings that are not all digits *)

Lemma parseInt_non_digit (c : ascii) :
  isDigit c = false -> parseInt [c] None = NaN.
Proof.
  destruct c as [[] [] [] [] [] [] [] []]; try discriminate;
    intros _; reflexivity.
Qed.

Lemma luhnStep_NaN (code : JSString) (parity i : nat) :
  luhnStep code parity NaN i = NaN.
Proof. reflexivity. Qed.

Lemma luhn_fold_NaN (code : JSString) (parity : nat) (l : list nat) :
  fold_left (luhnStep code parity) l NaN = NaN.
Proof. induction l as [|i l IH]; [reflexivity | exact IH]. Qed.

Lemma luhnStep_non_digit (code : JSString) (parity i : nat) (sum : number)
  (c : ascii) :
  nth_error code i = Some c -> isDigit c = false ->
  luhnStep code parity sum i = NaN.
Proof.
  intros H D. unfold luhnStep, charAt. rewrite H, (parseInt_non_digit c D).
  destruct (i mod 2 =? parity), sum; reflexivity.
Qed.

Lemma luhn_fold_non_digit (code : JSString) (parity i : nat) (c : ascii)
  (l : list nat) (sum : number) :
  nth_error code i = Some c -> isDigit c = false -> In i l ->
  fold_left (luhnStep code parity) l sum = NaN.
Proof.
  intros H D. revert sum. induction l as [|j l IH]; intros sum Hin;
    [destruct Hin|].
  cbn [fold_left]. destruct Hin as [-> | Hin].
  - rewrite (luhnStep_non_digit code parity i sum c H D).
    apply luhn_fold_NaN.
  - apply IH, Hin.
Qed.

Lemma not_allDigits (s : JSString) :
  allDigits s = false ->
  exists i c, nth_error s i = Some c /\ isDigit c = false.
Proof.
  induction s as [|x s IH]; [discriminate|].
  cbn [allDigits forallb]. destruct (isDigit x) eqn:D.
  - intros H. destruct (IH H) as (i & c & Hi & Hc).
    exists (S i), c. split; assumption.
  - intros _. exists 0, x. split; [reflexivity | exact D].
Qed.

(** X16. [luhnChecksum] is a number from 0 to 9 on a string of digits and
    NaN on any string that holds another character; [luhnValidate], which
    removes the other characters first, does not see them: it gives the
    same answer on a string and on its digits. *)
Theorem luhnChecksum_NaN (code : JSString) :
  (allDigits code = false -> luhnChecksum code = NaN)
  /\ (allDigits code = true ->
      exists z, luhnChecksum code = Num z /\ (0 <= z <= 9)%Z)
  /\ luhnValidate code = luhnValidate (removeNonDigits code).
Proof.
  split; [|split].
  - intros H. destruct (not_allDigits code H) as (i & c & Hi & Hc).
    unfold luhnChecksum.
    rewrite (luhn_fold_non_digit code _ i c _ _ Hi Hc); [reflexivity|].
    apply -> in_rev. apply in_seq.
    assert (i < length code) by (apply nth_error_Some; congruence). lia.
  - intros H. exists (luhnChecksum_spec code).
    split; [apply luhnChecksum_correct, H|].
    unfold luhnChecksum_spec.
    pose proof (Z.mod_pos_bound
      (sumZ (map (luhnTerm code) (rev (seq 0 (length code))))) 10). lia.
  - unfold luhnValidate.
    rewrite (removeNonDigits_id (removeNonDigits code))
      by apply allDigits_removeNonDigits.
    reflexivity.
Qed.

Lemma luhnChecksum_NaN_witness :
  luhnChecksum (str "4111 1111 1111 1111") = NaN
  /\ luhnValidate (str "4111 1111 1111 1111") = true.
Proof.
  split.
  - apply (proj1 (luhnChecksum_NaN (str "4111 1111 1111 1111"))).
    reflexivity.
  - reflexivity.
Defined.

(** ** The handlers of the expiry and CVV fields *)

Section FieldHandlers.

Context {Host Exn : Type}.
Variable call :
  Listener -> list Value -> World Host Exn -> World Host Exn * Completion Exn.

Lemma afterExpiry_status (this : CreditCardInput) (v : JSString) (d : Date) :
  _expiryStatus (afterExpiry this v d) = expiry_status (expiryEvent v d).
Proof.
  unfold afterExpiry.
  destruct (checked_statuses
              (set_expiryStatus this (expiry_status (expiryEvent v d))))
    as (_ & -> & _).
  reflexivity.
Qed.

Lemma afterCvv_status (this : CreditCardInput) (v : JSString) :
  _cvvStatus (afterCvv this v) = cvv_status (cvvEvent this v).
Proof.
  unfold afterCvv.
  destruct (checked_statuses
              (set_cvvStatus this (cvv_status (cvvEvent this v))))
    as (_ & _ & -> & _).
  reflexivity.
Qed.

(** X17. The handlers of the expiry and CVV fields, with the default
    formatters, evaluate the first four digits typed and ignore the rest:
    the expiry is neutral exactly below four digits and otherwise judged on
    the first two digits as month and the next two as year; the CVV is
    neutral without digits and valid exactly with three digits, or with
    four or more when the card number is Amex. *)
Theorem field_handlers_evaluate (this : CreditCardInput) (s : Sys Host Exn)
  (Hfe : _formatExpiry this = formatExpiry)
  (Hfc : _formatCvv this = formatCvv) :
  (let digits := removeNonDigits (value (expiryInput (world s))) in
   let month := decimal (firstn 2 digits) in
   let year := (2000 + decimal (firstn 2 (skipn 2 digits)))%Z in
   let currentTotal :=
     (getFullYear (now (world s)) * 12 + (getMonth (now (world s)) + 1))%Z in
   exists s' this',
     onExpiryInput call this s = (s', Returned this')
     /\ (_expiryStatus this' = neutral <-> length digits < 4)
     /\ (4 <= length digits ->
         ((month < 1 \/ 12 < month)%Z -> _expiryStatus this' = invalid)
         /\ ((1 <= month <= 12)%Z ->
             (_expiryStatus this' = valid
              <-> (currentTotal <= year * 12 + month
                   <= currentTotal + 120)%Z))))
  /\ (let n := countDigits (value (cvvInput (world s))) in
      exists s' this',
        onCvvInput call this s = (s', Returned this')
        /\ (_cvvStatus this' = neutral <-> n = 0)
        /\ (_cvvStatus this' = valid
            <-> if _isAmex this then 4 <= n else n = 3)).
Proof.
  split; cbv zeta.
  - set (s0 := {| world := set_expiryInput
                             (formatExpiry (expiryInput (world s))) (world s);
                  emitted := emitted s; applied := applied s |}).
    destruct (_updateExpiryStatus_returns call this s0) as (s' & E & _).
    cbv zeta in E.
    exists s', (afterExpiry this (value (expiryInput (world s0)))
                  (now (world s0))).
    split.
    { unfold onExpiryInput, bind, update_world. rewrite Hfe. exact E. }
    rewrite afterExpiry_status.
    subst s0. cbn [world set_expiryInput expiryInput now].
    assert (C : expiryInput (world s)
                = mkInput (value (expiryInput (world s)))
                    (selectionStart (expiryInput (world s))))
      by (destruct (expiryInput (world s)); reflexivity).
    rewrite C.
    destruct (expiryEvent_rule
                (value (formatExpiry
                          (mkInput (value (expiryInput (world s)))
                             (selectionStart (expiryInput (world s))))))
                (now (world s))) as (_ & Hn & H4).
    cbv zeta in Hn, H4. cbn [value] in *.
    rewrite formatExpiry_digits in Hn, H4.
    rewrite length_firstn in Hn, H4.
    rewrite firstn_firstn, skipn_firstn_comm in H4.
    cbn [Nat.min Nat.sub] in H4.
    set (ds := removeNonDigits (value (expiryInput (world s)))) in *.
    destruct (Nat.lt_ge_cases (length ds) 4) as [L|G].
    + assert (X : Nat.min 4 (length ds) <> 4) by lia.
      destruct (Hn X) as (-> & _). settle.
    + assert (X : Nat.min 4 (length ds) = 4) by lia.
      destruct (H4 X) as (_ & _ & Hout & Hin).
      split; [|intros _; split; [exact Hout | intros R; apply Hin, R]].
      split; [|lia]. intros N.
      destruct (Z.lt_ge_cases (decimal (firstn 2 ds)) 1) as [A|A];
        [rewrite Hout in N by lia; discriminate|].
      destruct (Z.lt_ge_cases 12 (decimal (firstn 2 ds))) as [B|B];
        [rewrite Hout in N by lia; discriminate|].
      destruct (Hin ltac:(lia)) as [V I].
      set (P := (getFullYear (now (world s)) * 12
                 + (getMonth (now (world s)) + 1)
                 <= (2000 + decimal (firstn 2 (skipn 2 ds))) * 12
                    + decimal (firstn 2 ds)
                 <= getFullYear (now (world s)) * 12
                    + (getMonth (now (world s)) + 1) + 120)%Z) in *.
      assert (D : P \/ ~ P) by (subst P; lia).
      destruct D as [D|D];
        [rewrite (proj2 V D) in N | rewrite (proj2 I D) in N]; discriminate.
  - set (s0 := {| world := set_cvvInput (formatCvv (cvvInput (world s)))
                             (world s);
                  emitted := emitted s; applied := applied s |}).
    destruct (_updateCvvStatus_returns call this s0) as (s' & E & _).
    cbv zeta in E.
    exists s', (afterCvv this (value (cvvInput (world s0)))).
    split.
    { unfold onCvvInput, bind, update_world. rewrite Hfc. exact E. }
    rewrite afterCvv_status.
    subst s0. cbn [world set_cvvInput cvvInput].
    assert (C : cvvInput (world s)
                = mkInput (value (cvvInput (world s)))
                    (selectionStart (cvvInput (world s))))
      by (destruct (cvvInput (world s)); reflexivity).
    rewrite C. cbn [value].
    destruct (cvvEvent_status this
                (value (formatCvv
                          (mkInput (value (cvvInput (world s)))
                             (selectionStart (cvvInput (world s)))))))
      as [Q1 Q2].
    unfold countDigits in Q1, Q2. rewrite formatCvv_digits in Q1, Q2.
    rewrite length_firstn in Q1, Q2.
    fold (countDigits (value (cvvInput (world s)))) in Q1, Q2.
    rewrite Q1, Q2. destruct (_isAmex this); settle.
Qed.

End FieldHandlers.

Lemma field_handlers_evaluate_witness :
  exists s' this',
    onCvvInput sampleCall
      (set_card sampleEngine (str "American Express") true neutral)
      (sampleSys [] [] (str "12345"))
    = (s', Returned this')
    /\ _cvvStatus this' = valid.
Proof.
  destruct (proj2 (field_handlers_evaluate sampleCall
                     (set_card sampleEngine (str "American Express") true
                        neutral)
                     (sampleSys [] [] (str "12345")) eq_refl eq_refl))
    as (s' & this' & E & _ & V).
  exists s', this'. split; [exact E|]. apply V. vm_compute. lia.
Defined.
